(** * ytmusicapi/ytmusic.py: the request pipeline of the YTMusic client

    A shallow embedding of [YTMusic.__init__], [YTMusic._send_request],
    [YTMusic._send_get_request] and [YTMusic._check_auth].

    Python objects are records of attributes, an attribute that was never
    assigned is [None] of an option, exceptions are values of [exn], and the
    outside world (file system, clock, HTTP session, the modules
    [ytmusicapi.helpers], [orjson], [aiohttp], [gettext], [locale]) is an
    environment [Env] of oracles that see the history of events so far. *)

From Stdlib Require Import ZArith List String Ascii Bool Lia.
From Stdlib Require Import DecimalString DecimalZ.
Import ListNotations.
Open Scope string_scope.

Set Implicit Arguments.

(* ------------------------------------------------------------------ *)
(** ** Text *)

Module Text.

(** One element of a [string] stands for one code point of a Python [str]
    (the range U+0000 .. U+00FF). *)

Definition nl : string := String (ascii_of_nat 10) "".
Definition quote : string := String (ascii_of_nat 34) "".

(** [str.lower] on one code point: A-Z and the Latin-1 capitals
    U+00C0 .. U+00DE, U+00D7 apart, move up by 32. *)
Definition lower_ascii (c : ascii) : ascii :=
  let n := nat_of_ascii c in
  if ((65 <=? n) && (n <=? 90)
      || (192 <=? n) && (n <=? 222) && negb (n =? 215))%nat
  then ascii_of_nat (n + 32) else c.

Fixpoint lower (s : string) : string :=
  match s with
  | EmptyString => EmptyString
  | String c r => String (lower_ascii c) (lower r)
  end.

(** [str(n)] for a Python int. *)
Definition str (z : Z) : string := NilEmpty.string_of_int (Z.to_int z).

(** [sep.join(items)]. *)
Definition join (sep : string) (items : list string) : string :=
  String.concat sep items.

(** [needle in hay] for two Python strings, as a proposition. *)
Definition occurs (needle hay : string) : Prop :=
  exists pre post, hay = pre ++ needle ++ post.

Fixpoint mem (c : ascii) (s : string) : bool :=
  match s with
  | EmptyString => false
  | String d r => Ascii.eqb c d || mem c r
  end.

(** [needle in hay], computed. *)
Fixpoint contains (needle hay : string) : bool :=
  String.prefix needle hay
  || match hay with
     | EmptyString => false
     | String _ r => contains needle r
     end.

End Text.

(* ------------------------------------------------------------------ *)
(** ** JSON values and Python dicts *)

(** What [orjson.loads] produces.  A [dict] keeps insertion order. *)
#[warnings="-register-all"]
Inductive json : Type :=
| JNull
| JBool (b : bool)
| JInt (z : Z)
| JFloat (bits : Z)
| JStr (s : string)
| JArr (items : list json)
| JObj (fields : list (string * json)).

Definition dict := list (string * json).

Module Dict.

Fixpoint get (k : string) (d : dict) : option json :=
  match d with
  | [] => None
  | (k', v) :: r => if String.eqb k k' then Some v else get k r
  end.

(** [d[k] = v]: an existing key keeps its place, a new one goes last. *)
Fixpoint set (k : string) (v : json) (d : dict) : dict :=
  match d with
  | [] => [(k, v)]
  | (k', v') :: r =>
      if String.eqb k k' then (k', v) :: r else (k', v') :: set k v r
  end.

Definition keys (d : dict) : list string := map fst d.

(** [d.update(other)]: for every key of [other], [d[key] = other[key]]. *)
Definition update (d other : dict) : dict :=
  fold_left
    (fun acc k => match get k other with
                  | Some v => set k v acc
                  | None => acc
                  end)
    (keys other) d.

Definition contains (k : string) (d : dict) : bool :=
  match get k d with Some _ => true | None => false end.

End Dict.

(** [requests.structures.CaseInsensitiveDict]: the store maps the lowered key
    to the pair of the key as last written and the value. *)
Definition CaseInsensitiveDict := list (string * (string * json)).

Module CID.

Fixpoint find (lk : string) (h : CaseInsensitiveDict) : option (string * json) :=
  match h with
  | [] => None
  | (k', e) :: r => if String.eqb lk k' then Some e else find lk r
  end.

Fixpoint store (lk : string) (e : string * json) (h : CaseInsensitiveDict)
  : CaseInsensitiveDict :=
  match h with
  | [] => [(lk, e)]
  | (k', e') :: r =>
      if String.eqb lk k' then (k', e) :: r else (k', e') :: store lk e r
  end.

(** [h[key] = value] *)
Definition setitem (key : string) (value : json) (h : CaseInsensitiveDict)
  : CaseInsensitiveDict :=
  store (Text.lower key) (key, value) h.

(** [h.get(key, default)] *)
Definition get (key : string) (default : json) (h : CaseInsensitiveDict) : json :=
  match find (Text.lower key) h with
  | Some (_, v) => v
  | None => default
  end.

(** [key in h] *)
Definition contains (key : string) (h : CaseInsensitiveDict) : bool :=
  match find (Text.lower key) h with Some _ => true | None => false end.

(** [h.update(d)] for a plain dict [d]. *)
Definition update (h : CaseInsensitiveDict) (d : dict) : CaseInsensitiveDict :=
  fold_left
    (fun acc k => match Dict.get k d with
                  | Some v => setitem k v acc
                  | None => acc
                  end)
    (Dict.keys d) h.

End CID.

(* ------------------------------------------------------------------ *)
(** ** Exceptions and results *)

(** The classes matter to the [except] clauses; the texts of the exceptions
    Python or a library raises are indicative, those of [Exception] are the
    ones ytmusic.py builds. *)

Inductive exn : Type :=
| Exception (msg : string)        (* [raise Exception(msg)], the only class ytmusic.py raises *)
| AttributeError (msg : string)
| TypeError (msg : string)
| ValueError (msg : string)
| KeyError (key : string)
| LocaleError (msg : string)      (* [locale.Error] *)
| LibraryError (cls msg : string) (* raised inside a library: decode, OS or network error *).

(** [str(e)] *)
Definition exn_str (e : exn) : string :=
  match e with
  | Exception m | AttributeError m | TypeError m | ValueError m
  | LocaleError m | LibraryError _ m => m
  | KeyError k => "'" ++ k ++ "'"
  end.

Inductive Result (A : Type) : Type :=
| Ok (a : A)
| Raise (e : exn).
Arguments Ok {A} a.
Arguments Raise {A} e.

Definition is_ok {A} (r : Result A) : bool :=
  match r with Ok _ => true | Raise _ => false end.

Definition and_then {A B} (r : Result A) (k : A -> Result B) : Result B :=
  match r with
  | Ok a => k a
  | Raise e => Raise e
  end.

(** Python truthiness of the values the constructor tests. *)
Class Truthy (A : Type) := truthy : A -> bool.
#[global] Instance Truthy_str : Truthy string :=
  fun s => match s with EmptyString => false | _ => true end.
#[global] Instance Truthy_optional {A} `{Truthy A} : Truthy (option A) :=
  fun o => match o with Some a => truthy a | None => false end.

(** A state and exception monad: a raised exception keeps the state reached. *)
Definition M (S A : Type) : Type := S -> Result A * S.

Definition ret {S A} (a : A) : M S A := fun s => (Ok a, s).
Definition raise {S A} (e : exn) : M S A := fun s => (Raise e, s).
Definition bind {S A B} (m : M S A) (k : A -> M S B) : M S B :=
  fun s => match m s with
           | (Ok a, s') => k a s'
           | (Raise e, s') => (Raise e, s')
           end.
Definition lift {S A} (r : Result A) : M S A := fun s => (r, s).
Definition gets {S A} (f : S -> A) : M S A := fun s => (Ok (f s), s).
Definition modify {S} (f : S -> S) : M S unit := fun s => (Ok tt, f s).

Declare Scope py_scope.
Delimit Scope py_scope with py.
Notation "x <- m ;; k" := (bind m (fun x => k))
  (at level 61, m at next level, right associativity) : py_scope.
Notation "m ;;; k" := (bind m (fun _ => k))
  (at level 61, right associativity) : py_scope.
Notation "x <~ r ;; k" := (and_then r (fun x => k))
  (at level 61, r at next level, right associativity) : py_scope.

(* ------------------------------------------------------------------ *)
(** ** Item access on decoded values *)

Module Item.

(** [obj[key]] with a [str] key. *)
Definition getitem (obj : json) (key : string) : Result json :=
  match obj with
  | JObj d => match Dict.get key d with
              | Some v => Ok v
              | None => Raise (KeyError key)
              end
  | _ => Raise (TypeError "object is not subscriptable by str")
  end.

(** [obj[key] = value] with a [str] key. *)
Definition setitem (obj : json) (key : string) (value : json) : Result json :=
  match obj with
  | JObj d => Ok (JObj (Dict.set key value d))
  | _ => Raise (TypeError "object does not support item assignment by str")
  end.

(** [d[k1][k2][k3] = value] on a dict [d]; the inner dicts are updated in
    place, so the outer ones keep every other entry. *)
Definition setitem3 (d : dict) (k1 k2 k3 : string) (value : json) : Result dict :=
  match getitem (JObj d) k1 with
  | Raise e => Raise e
  | Ok o1 =>
      match getitem o1 k2 with
      | Raise e => Raise e
      | Ok o2 =>
          match setitem o2 k3 value with
          | Raise e => Raise e
          | Ok o2' =>
              match setitem o1 k2 o2' with
              | Raise e => Raise e
              | Ok o1' => Ok (Dict.set k1 o1' d)
              end
          end
      end
  end.

(** [obj.get(key, default)]: only a dict has the method. *)
Definition get (obj : json) (key : string) (default : json) : Result json :=
  match obj with
  | JObj d => Ok (match Dict.get key d with Some v => v | None => default end)
  | _ => Raise (AttributeError "object has no attribute 'get'")
  end.

(** [prefix + value] where [prefix] is a [str]. *)
Definition concat_str (prefix : string) (value : json) : Result string :=
  match value with
  | JStr s => Ok (prefix ++ s)
  | _ => Raise (TypeError "can only concatenate str to str")
  end.

End Item.

(** [CaseInsensitiveDict(data)] and its [update]: a dict is copied key by key,
    anything else is iterated as pairs; the constructor takes [None] for the
    empty mapping. *)
Module CIDNew.

Definition unpack2 (item : json) : Result (json * json) :=
  match item with
  | JArr [a; b] => Ok (a, b)
  | JStr (String a (String b EmptyString)) =>
      Ok (JStr (String a ""), JStr (String b ""))
  | JObj [(k1, _); (k2, _)] => Ok (JStr k1, JStr k2)
  | JArr _ | JStr _ | JObj _ => Raise (ValueError "wrong number of values to unpack")
  | _ => Raise (TypeError "cannot unpack non-iterable object")
  end.

Fixpoint from_pairs (h : CaseInsensitiveDict) (items : list json)
  : Result CaseInsensitiveDict :=
  match items with
  | [] => Ok h
  | item :: rest =>
      match unpack2 item with
      | Raise e => Raise e
      | Ok (JStr k, v) => from_pairs (CID.setitem k v h) rest
      | Ok _ => Raise (AttributeError "object has no attribute 'lower'")
      end
  end.

(** [h.update(data)] *)
Definition merge (h : CaseInsensitiveDict) (data : json) : Result CaseInsensitiveDict :=
  match data with
  | JObj d => Ok (CID.update h d)
  | JArr items => from_pairs h items
  | JStr EmptyString => Ok h
  | JStr _ => Raise (ValueError "not enough values to unpack")
  | _ => Raise (TypeError "object is not iterable")
  end.

Definition make (data : json) : Result CaseInsensitiveDict :=
  match data with
  | JNull => Ok []
  | _ => merge [] data
  end.

End CIDNew.

(* ------------------------------------------------------------------ *)
(** ** The world outside ytmusic.py *)

Record request : Type := {
  url : string;
  payload : json;                     (* [json=] of a POST, [params=] of a GET *)
  sent_headers : CaseInsensitiveDict;
  sent_proxies : json;
  sent_cookies : dict
}.

(** What the code reads off the response object. *)
Record response : Type := {
  status : Z;
  status_code : option Z;             (* [None]: the object has no such attribute *)
  reason : string;
  text : string;                      (* [await response.text()] *)
  json_body : Result json             (* [await response.json(loads=orjson.loads)] *)
}.

(** The attribute [text] of a response when it is read and not called: on
    the response of aiohttp it is a coroutine method, so what is read is
    the method bound to the response, and the text itself comes only from
    calling and awaiting it. *)
Inductive bound_method : Type :=
| TextMethod (owner : response).

Inductive event : Type :=
| EvPrint (line : string)
| EvTime (t : Z)
| EvPost (rq : request) (answer : Result response)
| EvGet (rq : request) (answer : Result response).

(** The history, oldest event first. *)
Definition World := list event.

(** Values that line 110 moves around. *)
#[warnings="-register-all"]
Inductive pyobj : Type :=
| PyData (j : json)
| PyCoroutine
| PyFuture (children : list pyobj)
| PyList (items : list pyobj).

Record Env : Type := {
  (* os, orjson, locale, gettext *)
  isfile : string -> bool;
  open_and_load : string -> Result json;       (* [open(file)] then [orjson.load] *)
  orjson_loads : string -> Result json;
  listdir_locales : Result (list string);      (* [os.listdir(locale_dir)] *)
  setlocale : string -> Result unit;
  gettext_translation : list string -> Result unit;
  browsing_Parser : Result unit;
  (* ytmusicapi.helpers, which is not among the sources *)
  initialize_headers : CaseInsensitiveDict;
  initialize_context : dict;
  get_visitor_id : Result pyobj;               (* the call [get_visitor_id(self._send_get_request)] *)
  sapisid_from_cookie : json -> Result string;
  hash_scheme : Z -> string -> string;
  YTM_BASE_API : string;
  YTM_PARAMS : string;
  (* clock and aiohttp session *)
  time_now : World -> Z;
  session_post : World -> request -> Result response;
  session_get : World -> request -> Result response
}.

(* ------------------------------------------------------------------ *)
(** ** The client object *)

Inductive session : Type :=
| SuppliedSession (handle : nat)      (* an [aiohttp.ClientSession] of the caller *)
| OwnSession (timeout : Z).

(** The attributes of a [YTMusic] object.  Lines 78 to 87 assign [auth],
    [_session], [proxies] and [cookies] one after the other and cannot fail,
    so every object a later line or a method reads has them; [auth] and
    [proxies] hold [None] when the argument was left out.  Each of the
    others is [None] here until its assignment has run. *)
Record YTMusic : Type := {
  auth : option string;
  _session : option session;
  proxies : json;
  cookies : dict;
  headers : option CaseInsensitiveDict;
  context : option dict;
  language : option string;
  lang : option (list string);
  parser : option (list string);
  sapisid : option string
}.

(** The object as [__init__] receives it, ahead of line 78. *)
Definition blank : YTMusic :=
  {| auth := None; _session := None; proxies := JNull; cookies := [];
     headers := None; context := None; language := None; lang := None;
     parser := None; sapisid := None |}.

Definition with_auth (v : option string) (y : YTMusic) : YTMusic :=
  {| auth := v; _session := _session y; proxies := proxies y; cookies := cookies y;
     headers := headers y; context := context y; language := language y;
     lang := lang y; parser := parser y; sapisid := sapisid y |}.
Definition with_session (v : session) (y : YTMusic) : YTMusic :=
  {| auth := auth y; _session := Some v; proxies := proxies y; cookies := cookies y;
     headers := headers y; context := context y; language := language y;
     lang := lang y; parser := parser y; sapisid := sapisid y |}.
Definition with_proxies (v : json) (y : YTMusic) : YTMusic :=
  {| auth := auth y; _session := _session y; proxies := v; cookies := cookies y;
     headers := headers y; context := context y; language := language y;
     lang := lang y; parser := parser y; sapisid := sapisid y |}.
Definition with_cookies (v : dict) (y : YTMusic) : YTMusic :=
  {| auth := auth y; _session := _session y; proxies := proxies y; cookies := v;
     headers := headers y; context := context y; language := language y;
     lang := lang y; parser := parser y; sapisid := sapisid y |}.
Definition with_headers (v : CaseInsensitiveDict) (y : YTMusic) : YTMusic :=
  {| auth := auth y; _session := _session y; proxies := proxies y; cookies := cookies y;
     headers := Some v; context := context y; language := language y;
     lang := lang y; parser := parser y; sapisid := sapisid y |}.
Definition with_context (v : dict) (y : YTMusic) : YTMusic :=
  {| auth := auth y; _session := _session y; proxies := proxies y; cookies := cookies y;
     headers := headers y; context := Some v; language := language y;
     lang := lang y; parser := parser y; sapisid := sapisid y |}.
Definition with_language (v : string) (y : YTMusic) : YTMusic :=
  {| auth := auth y; _session := _session y; proxies := proxies y; cookies := cookies y;
     headers := headers y; context := context y; language := Some v;
     lang := lang y; parser := parser y; sapisid := sapisid y |}.
Definition with_lang (v : list string) (y : YTMusic) : YTMusic :=
  {| auth := auth y; _session := _session y; proxies := proxies y; cookies := cookies y;
     headers := headers y; context := context y; language := language y;
     lang := Some v; parser := parser y; sapisid := sapisid y |}.
Definition with_parser (v : list string) (y : YTMusic) : YTMusic :=
  {| auth := auth y; _session := _session y; proxies := proxies y; cookies := cookies y;
     headers := headers y; context := context y; language := language y;
     lang := lang y; parser := Some v; sapisid := sapisid y |}.
Definition with_sapisid (v : string) (y : YTMusic) : YTMusic :=
  {| auth := auth y; _session := _session y; proxies := proxies y; cookies := cookies y;
     headers := headers y; context := context y; language := language y;
     lang := lang y; parser := parser y; sapisid := Some v |}.

(** What every method runs on: the object and the history. *)
Record State : Type := { self : YTMusic; world : World }.

Definition on_self (f : YTMusic -> YTMusic) : M State unit :=
  modify (fun s => {| self := f (self s); world := world s |}).

Definition emit (e : event) : M State unit :=
  modify (fun s => {| self := self s; world := (world s ++ [e])%list |}).

(** [self.name], which raises when the attribute was never assigned. *)
Definition attr {A} (name : string) (f : YTMusic -> option A) : M State A :=
  fun s => match f (self s) with
           | Some a => (Ok a, s)
           | None => (Raise (AttributeError
                        ("'YTMusic' object has no attribute '" ++ name ++ "'")), s)
           end.

(** [try: body except Exception as e: handler(e)] *)
Definition try_except {S A} (body : M S A) (handler : exn -> M S A) : M S A :=
  fun s => match body s with
           | (Raise e, s') => handler e s'
           | done => done
           end.

(** [try: body except <selected>: handler(e)] *)
Definition catch {S A} (selected : exn -> bool) (body : M S A) (handler : exn -> M S A)
  : M S A :=
  fun s => match body s with
           | (Raise e, s') => if selected e then handler e s' else (Raise e, s')
           | done => done
           end.

Definition is_KeyError (e : exn) : bool :=
  match e with KeyError _ => true | _ => false end.
Definition is_LocaleError (e : exn) : bool :=
  match e with LocaleError _ => true | _ => false end.

(* ------------------------------------------------------------------ *)
(** ** asyncio as line 110 uses it *)

Module Asyncio.

Definition awaitable (o : pyobj) : bool :=
  match o with
  | PyCoroutine | PyFuture _ => true
  | PyData _ | PyList _ => false
  end.

(** [asyncio.gather(aw1, aw2, ...)]: every positional argument has to be awaitable;
    the result is a future, to be awaited by the caller. *)
Definition gather (aws : list pyobj) : Result pyobj :=
  if forallb awaitable aws then Ok (PyFuture aws)
  else Raise (TypeError "An asyncio.Future, a coroutine or an awaitable is required").

(** [o[0]] *)
Definition subscript0 (o : pyobj) : Result pyobj :=
  match o with
  | PyList (x :: _) => Ok x
  | PyData (JArr (x :: _)) => Ok (PyData x)
  | PyData (JStr (String c _)) => Ok (PyData (JStr (String c "")))
  | PyList [] | PyData (JArr []) | PyData (JStr EmptyString) =>
      Raise (LibraryError "IndexError" "index out of range")
  | PyData (JObj _) => Raise (KeyError "0")
  | _ => Raise (TypeError "object is not subscriptable")
  end.

(** The plain data an object stands for, when it is plain data. *)
Fixpoint as_data (o : pyobj) : option json :=
  match o with
  | PyData j => Some j
  | PyList items =>
      option_map JArr
        ((fix all (l : list pyobj) : option (list json) :=
            match l with
            | [] => Some []
            | x :: r => match as_data x, all r with
                        | Some j, Some js => Some (j :: js)
                        | _, _ => None
                        end
            end) items)
  | PyCoroutine | PyFuture _ => None
  end.

End Asyncio.

(* ------------------------------------------------------------------ *)
(** ** The methods of [YTMusic] *)

Record init_args : Type := {
  arg_auth : option string;
  arg_user : option string;
  arg_client_session : option nat;    (* [Some h]: an [aiohttp.ClientSession];
                                         [None]: none given, line 83 makes one *)
  arg_proxies : json;
  arg_language : string
}.

(** The outcome of one [_send_request]: what the caller gets back, the dict
    the caller passed as [body] after the call, and the state reached. *)
Record outcome : Type := {
  returned : Result json;
  body_after : dict;
  state_after : State
}.

Section Client.

Variable E : Env.
Local Open Scope py_scope.

(** *** [__init__], lines 78 to 145 *)

(* 80-84; line 83 makes the session of the client's own where aiohttp can
   make one, inside a running event loop *)
Definition choose_session (client_session : option nat) : session :=
  match client_session with
  | Some h => SuppliedSession h
  | None => OwnSession 30
  end.

(* 92-97 *)
Definition load_credentials (a : string) : M State unit :=
  if isfile E a then
    j <- lift (open_and_load E a) ;;
    h <- lift (CIDNew.make j) ;;
    on_self (with_headers h)
  else
    j <- lift (orjson_loads E a) ;;
    h <- lift (CIDNew.make j) ;;
    on_self (with_headers h).

(* 100-103 *)
Definition credentials_diagnostic (e : exn) : string :=
  "Failed loading provided credentials. Make sure to provide a string or a file path. "
  ++ "Reason: " ++ exn_str e.

(* 90-106 *)
Definition prepare_headers (a : option string) : M State unit :=
  match a with
  | Some s =>
      if truthy s then
        catch (fun _ => true) (load_credentials s)
              (fun e => emit (EvPrint (credentials_diagnostic e)))
      else on_self (with_headers (initialize_headers E))
  | None => on_self (with_headers (initialize_headers E))
  end.

(* 109: [self.headers.update(x)] *)
Definition headers_update (x : pyobj) : M State unit :=
  h <- attr "headers" headers ;;
  match Asyncio.as_data x with
  | Some data => h' <- lift (CIDNew.merge h data) ;; on_self (with_headers h')
  | None => raise (TypeError "object is not iterable")
  end.

(* 108-111 *)
Definition resolve_visitor_id : M State unit :=
  h <- attr "headers" headers ;;
  if negb (CID.contains "x-goog-visitor-id" h) then
    c <- lift (get_visitor_id E) ;;
    g <- lift (Asyncio.gather [PyList [c]]) ;;
    x <- lift (Asyncio.subscript0 g) ;;
    headers_update x
  else ret tt.

(* 119-122: two adjacent literals make one string, the receiver of [join] *)
Definition unsupported_language (supported : list string) : string :=
  Text.join ("Language not supported. Supported languages are " ++ ", ") supported.

(* 114-115 *)
Definition build_context (lng : string) : M State unit :=
  on_self (with_context (initialize_context E)) ;;;
  ctx <- attr "context" context ;;
  ctx' <- lift (Item.setitem3 ctx "context" "client" "hl" (JStr lng)) ;;
  on_self (with_context ctx').

(* 116-123 *)
Definition validate_language (lng : string) : M State unit :=
  supported_languages <- lift (listdir_locales E) ;;
  if negb (existsb (String.eqb lng) supported_languages) then
    raise (Exception (unsupported_language supported_languages))
  else on_self (with_language lng).

(* 124-132 *)
Definition prepare_locale (lng : string) : M State unit :=
  catch is_LocaleError
        (lift (setlocale E lng))
        (fun _ => catch is_LocaleError (lift (setlocale E "en_US.UTF-8"))
                        (fun _ => ret tt)) ;;;
  lift (gettext_translation E [lng]) ;;;
  on_self (with_lang [lng]) ;;;
  lift (browsing_Parser E) ;;;
  on_self (with_parser [lng]).

(* 134-135 *)
Definition on_behalf_of (user : option string) : M State unit :=
  match user with
  | Some u =>
      if truthy u then
        ctx <- attr "context" context ;;
        ctx' <- lift (Item.setitem3 ctx "context" "user" "onBehalfOfUser" (JStr u)) ;;
        on_self (with_context ctx')
      else ret tt
  | None => ret tt
  end.

Definition missing_sapisid : string :=
  "Your cookie is missing the required value __Secure-3PAPISID".

(* 138-145 *)
Definition verify_auth (a : option string) : M State unit :=
  if truthy a then
    catch is_KeyError
          (h <- attr "headers" headers ;;
           let cookie := CID.get "cookie" JNull h in
           s <- lift (sapisid_from_cookie E cookie) ;;
           on_self (with_sapisid s))
          (fun _ => raise (Exception missing_sapisid))
  else ret tt.

(* 78-87 *)
Definition store_arguments (a : init_args) : M State unit :=
  on_self (with_auth (arg_auth a)) ;;;
  on_self (with_session (choose_session (arg_client_session a))) ;;;
  on_self (with_proxies (arg_proxies a)) ;;;
  on_self (with_cookies [("CONSENT", JStr "YES+1")]).

(* 78-115: everything ahead of the language check *)
Definition until_context (a : init_args) : M State unit :=
  store_arguments a ;;;
  prepare_headers (arg_auth a) ;;;
  resolve_visitor_id ;;;
  build_context (arg_language a).

(* 78-135: everything ahead of the credential check *)
Definition until_user (a : init_args) : M State unit :=
  until_context a ;;;
  validate_language (arg_language a) ;;;
  prepare_locale (arg_language a) ;;;
  on_behalf_of (arg_user a).

Definition __init__ (a : init_args) : M State unit :=
  until_user a ;;;
  verify_auth (arg_auth a).

(** [YTMusic(auth, user, client_session, proxies, language)]: the new
    object when [__init__] returns, its exception otherwise. *)
Definition construct (a : init_args) (w : World) : Result YTMusic * State :=
  match __init__ a {| self := blank; world := w |} with
  | (Ok _, s) => (Ok (self s), s)
  | (Raise e, s) => (Raise e, s)
  end.

(** *** [_send_request], lines 147 to 174 *)

(** Modelled from the spec: helpers.get_authorization is not among the
    sources.  The spec (4.3) has it combine its argument, the secret and
    the origin joined by a separator, with the current time under a
    one-way hashing scheme and format the result as
    [SAPISIDHASH <timestamp>_<hash>]. *)
Definition authorization (t : Z) (secret_and_origin : string) : string :=
  "SAPISIDHASH " ++ Text.str t ++ "_" ++ hash_scheme E t secret_and_origin.

Definition get_authorization (secret_and_origin : string) : M State string :=
  w <- gets world ;;
  let t := time_now E w in
  emit (EvTime t) ;;;
  ret (authorization t secret_and_origin).

(* 150 *)
Definition merge_context (body : dict) : M State dict :=
  ctx <- attr "context" context ;;
  ret (Dict.update body ctx).

(* 152: [self.headers.get("origin", self.headers.get("x-origin"))] *)
Definition origin_of (h : CaseInsensitiveDict) : json :=
  CID.get "origin" (CID.get "x-origin" JNull h) h.

(* 151-155 *)
Definition sign : M State unit :=
  a <- gets (fun s => auth (self s)) ;;
  if truthy a then
    h <- attr "headers" headers ;;
    let origin := origin_of h in
    secret <- attr "sapisid" sapisid ;;
    arg <- lift (Item.concat_str (secret ++ " ") origin) ;;
    token <- get_authorization arg ;;
    h' <- attr "headers" headers ;;
    on_self (with_headers (CID.setitem "Authorization" (JStr token) h'))
  else ret tt.

(* 165-171 *)
Definition error_prefix (r : response) : Result string :=
  match status_code r with
  | Some code =>
      Ok ("Server returned HTTP " ++ Text.str code ++ ": " ++ reason r ++ "." ++ Text.nl)
  | None => Raise (AttributeError "response object has no attribute 'status_code'")
  end.

(* 163-174 *)
Definition read_response (r : response) : Result json :=
  response_text <~ json_body r ;;
  if (400 <=? status r)%Z then
    message <~ error_prefix r ;;
    err <~ Item.get response_text "error" (JObj []) ;;
    error <~ Item.get err "message" JNull ;;
    full <~ Item.concat_str message error ;;
    Raise (Exception full)
  else Ok response_text.

(* 156-162: the request as [post] receives it *)
Definition post_request (endpoint : string) (body : dict) (additionalParams : string)
  (y : YTMusic) (h : CaseInsensitiveDict) : request :=
  {| url := YTM_BASE_API E ++ endpoint ++ YTM_PARAMS E ++ additionalParams;
     payload := JObj body;
     sent_headers := h;
     sent_proxies := proxies y;
     sent_cookies := cookies y |}.

(* 156-174 *)
Definition dispatch (endpoint : string) (body : dict) (additionalParams : string)
  : M State json :=
  h <- attr "headers" headers ;;
  y <- gets self ;;
  w <- gets world ;;
  let rq := post_request endpoint body additionalParams y h in
  let answer := session_post E w rq in
  emit (EvPost rq answer) ;;;
  response <- lift answer ;;
  lift (read_response response).

Definition _send_request (endpoint : string) (body : dict) (additionalParams : string)
  (s : State) : outcome :=
  match merge_context body s with
  | (Raise e, s1) => {| returned := Raise e; body_after := body; state_after := s1 |}
  | (Ok body', s1) =>
      let (r, s2) := (sign ;;; dispatch endpoint body' additionalParams) s1 in
      {| returned := r; body_after := body'; state_after := s2 |}
  end.

(** *** [_send_get_request], lines 176 to 185 *)
Definition _send_get_request (url_ : string) (params : json) : M State bound_method :=
  h <- attr "headers" headers ;;
  y <- gets self ;;
  w <- gets world ;;
  let rq := {| url := url_; payload := params; sent_headers := h;
               sent_proxies := proxies y; sent_cookies := cookies y |} in
  let answer := session_get E w rq in
  emit (EvGet rq answer) ;;;
  response <- lift answer ;;
  ret (TextMethod response).               (* 185: [response.text], not called *)

(** *** [_check_auth], lines 187 to 189 *)
Definition _check_auth : M State unit :=
  a <- gets (fun s => auth (self s)) ;;
  if negb (truthy a) then
    raise (Exception "Please provide authentication before using this function")
  else ret tt.

(** *** The states and the outcomes one call goes through *)

Definition no_attribute (name : string) : exn :=
  AttributeError ("'YTMusic' object has no attribute '" ++ name ++ "'").

(** The state the signing step of an authenticated call leaves. *)
Definition signed (s : State) (h : CaseInsensitiveDict) (arg : string) : State :=
  {| self := with_headers
               (CID.setitem "Authorization"
                  (JStr (authorization (time_now E (world s)) arg)) h)
               (self s);
     world := (world s ++ [EvTime (time_now E (world s))])%list |}.

(** The state a POST leaves. *)
Definition posted (s : State) (rq : request) : State :=
  {| self := self s;
     world := (world s ++ [EvPost rq (session_post E (world s) rq)])%list |}.

(** The ways a call can go: it stops ahead of the POST and leaves the
    history as it was, or it reaches the POST from the state [s1] the
    signing step left, and returns what [read_response] makes of the
    answer. *)
Inductive run_of (endpoint : string) (body : dict) (additionalParams : string)
  (s : State) : outcome -> Prop :=
| run_no_context e :
    context (self s) = None ->
    run_of endpoint body additionalParams s
      {| returned := Raise e; body_after := body; state_after := s |}
| run_stopped ctx e :
    context (self s) = Some ctx ->
    run_of endpoint body additionalParams s
      {| returned := Raise e; body_after := Dict.update body ctx; state_after := s |}
| run_posted ctx s1 h :
    context (self s) = Some ctx ->
    sign s = (Ok tt, s1) ->
    headers (self s1) = Some h ->
    let rq := post_request endpoint (Dict.update body ctx) additionalParams (self s1) h in
    run_of endpoint body additionalParams s
      {| returned := and_then (session_post E (world s1) rq) read_response;
         body_after := Dict.update body ctx;
         state_after := posted s1 rq |}.

(** The spec's words for line 172: the [error.message] field of the decoded
    error body, when the body has that shape. *)
Definition error_message_of (decoded : json) : option string :=
  match decoded with
  | JObj d =>
      match Dict.get "error" d with
      | Some (JObj e) =>
          match Dict.get "message" e with
          | Some (JStr m) => Some m
          | _ => None
          end
      | _ => None
      end
  | _ => None
  end.

(** A step that leaves [self.auth] alone, however it ends, and a step that
    leaves the value [v] there. *)
Definition keeps_auth {A} (m : M State A) : Prop :=
  forall s r s', m s = (r, s') -> auth (self s') = auth (self s).

Definition sets_auth {A} (v : option string) (m : M State A) : Prop :=
  forall s r s', m s = (r, s') -> auth (self s') = v.

End Client.

(* ------------------------------------------------------------------ *)
(** ** A concrete environment *)

Module Demo.

(** Modelled from the spec: helpers.sapisid_from_cookie is not among the
    sources.  The spec (4.1) has the store locate a specific named value
    inside the cookie header field and fail when it is absent; line 142
    takes that failure as a [KeyError]. *)
Fixpoint split_on (sep : ascii) (s : string) : list string :=
  match s with
  | EmptyString => [EmptyString]
  | String c r =>
      if Ascii.eqb c sep then EmptyString :: split_on sep r
      else match split_on sep r with
           | [] => [String c EmptyString]
           | part :: parts => String c part :: parts
           end
  end.

Fixpoint lstrip (s : string) : string :=
  match s with
  | String " " r => lstrip r
  | _ => s
  end.

Fixpoint cut (sep : ascii) (s : string) : option (string * string) :=
  match s with
  | EmptyString => None
  | String c r =>
      if Ascii.eqb c sep then Some (EmptyString, r)
      else match cut sep r with
           | Some (k, v) => Some (String c k, v)
           | None => None
           end
  end.

Fixpoint morsel (name : string) (parts : list string) : option string :=
  match parts with
  | [] => None
  | part :: rest =>
      match cut "=" (lstrip part) with
      | Some (k, v) => if String.eqb k name then Some v else morsel name rest
      | None => morsel name rest
      end
  end.

Definition cookie_sapisid (raw_cookie : json) : Result string :=
  match raw_cookie with
  | JStr raw =>
      match morsel "__Secure-3PAPISID" (split_on ";" raw) with
      | Some v => Ok v
      | None => Raise (KeyError "__Secure-3PAPISID")
      end
  | _ => Raise (KeyError "__Secure-3PAPISID")
  end.

(** A credential file content as a browser gives it, and the same text
    without the visitor identity. *)
Definition bundle : dict :=
  [ ("User-Agent", JStr "Mozilla/5.0");
    ("Cookie", JStr "CONSENT=YES+1; __Secure-3PAPISID=s3cr3t; SID=abc");
    ("X-Goog-Visitor-Id", JStr "Cgt2aXNpdG9y");
    ("x-origin", JStr "https://music.youtube.com") ].

Definition bundle_without_visitor : dict :=
  [ ("User-Agent", JStr "Mozilla/5.0");
    ("Cookie", JStr "CONSENT=YES+1; __Secure-3PAPISID=s3cr3t; SID=abc");
    ("x-origin", JStr "https://music.youtube.com") ].

Definition bundle_without_secret : dict :=
  [ ("Cookie", JStr "CONSENT=YES+1; SID=abc");
    ("X-Goog-Visitor-Id", JStr "Cgt2aXNpdG9y");
    ("x-origin", JStr "https://music.youtube.com") ].

Definition bundle_without_cookie : dict :=
  [ ("X-Goog-Visitor-Id", JStr "Cgt2aXNpdG9y");
    ("x-origin", JStr "https://music.youtube.com") ].

(** The decoder on the few texts used below; any other text is not JSON. *)
Definition decode (s : string) : Result json :=
  if String.eqb s "<bundle>" then Ok (JObj bundle)
  else if String.eqb s "<bundle without visitor id>" then Ok (JObj bundle_without_visitor)
  else if String.eqb s "<bundle without secret>" then Ok (JObj bundle_without_secret)
  else if String.eqb s "<bundle without cookie>" then Ok (JObj bundle_without_cookie)
  else if String.eqb s "null" then Ok JNull
  else Raise (LibraryError "JSONDecodeError" "unexpected character: line 1 column 1 (char 0)").

Definition default_headers : CaseInsensitiveDict :=
  CID.update []
    [ ("user-agent", JStr "Mozilla/5.0");
      ("accept", JStr "*/*");
      ("content-type", JStr "application/json");
      ("origin", JStr "https://music.youtube.com");
      ("x-goog-visitor-id", JStr "Cgt2aXNpdG9y") ].

Definition default_context : dict :=
  [ ("context",
     JObj [ ("client", JObj [ ("clientName", JStr "WEB_REMIX");
                              ("clientVersion", JStr "0.1") ]);
            ("user", JObj []) ]) ].

(** A server that gives every POST the same answer. *)
Definition env (answer : Result response) : Env :=
  {| isfile := fun _ => false;
     open_and_load := fun _ => Raise (LibraryError "FileNotFoundError" "no such file");
     orjson_loads := decode;
     listdir_locales := Ok ["de"; "en"; "fr"];
     setlocale := fun _ => Ok tt;
     gettext_translation := fun _ => Ok tt;
     browsing_Parser := Ok tt;
     initialize_headers := default_headers;
     initialize_context := default_context;
     get_visitor_id := Ok PyCoroutine;
     sapisid_from_cookie := cookie_sapisid;
     hash_scheme := fun t s => Text.str (Z.of_nat (String.length s) + t mod 97)%Z;
     YTM_BASE_API := "https://music.youtube.com/youtubei/v1/";
     YTM_PARAMS := "?alt=json";
     time_now := fun w => (1700000000 + Z.of_nat (List.length w))%Z;
     session_post := fun _ _ => answer;
     session_get := fun _ _ => Raise (LibraryError "ClientConnectorError" "unreachable") |}.

Definition answer (code : Z) (why : string) (body : json) : Result response :=
  Ok {| status := code; status_code := Some code; reason := why;
        text := ""; json_body := Ok body |}.

Definition ok_env : Env := env (answer 200 "OK" (JObj [("contents", JArr [JInt 1; JNull])])).

Definition args (a : option string) (lng : string) : init_args :=
  {| arg_auth := a; arg_user := None; arg_client_session := None;
     arg_proxies := JNull; arg_language := lng |}.

Definition client_context : dict :=
  [ ("context",
     JObj [ ("client", JObj [ ("clientName", JStr "WEB_REMIX");
                              ("clientVersion", JStr "0.1");
                              ("hl", JStr "en") ]);
            ("user", JObj []) ]) ].

Definition client_headers : CaseInsensitiveDict := CID.update [] bundle.

(** An authenticated client, as [construct] builds it from ["<bundle>"]. *)
Definition client : YTMusic :=
  {| auth := Some "<bundle>";
     _session := Some (OwnSession 30);
     proxies := JNull;
     cookies := [("CONSENT", JStr "YES+1")];
     headers := Some client_headers;
     context := Some client_context;
     language := Some "en";
     lang := Some ["en"];
     parser := Some ["en"];
     sapisid := Some "s3cr3t" |}.

(** The client [construct] builds without [auth]. *)
Definition anonymous : YTMusic :=
  {| auth := None;
     _session := Some (OwnSession 30);
     proxies := JNull;
     cookies := [("CONSENT", JStr "YES+1")];
     headers := Some default_headers;
     context := context client;
     language := Some "en";
     lang := Some ["en"];
     parser := Some ["en"];
     sapisid := None |}.

Definition search_body : dict :=
  [ ("query", JStr "oasis"); ("context", JStr "mine") ].

Definition start : State := {| self := client; world := [] |}.
Definition anonymous_start : State := {| self := anonymous; world := [] |}.






End Demo.

(* ------------------------------------------------------------------ *)
(** ** Vocabulary for the properties of the methods *)

(** A step that leaves the observation [f] of the state alone, however it
    ends. *)
Definition preserves {X A} (f : State -> X) (m : M State A) : Prop :=
  forall s r s', m s = (r, s') -> f s' = f s.

(** [d[k1][k2][k3]] *)
Definition getitem3 (d : dict) (k1 k2 k3 : string) : Result json :=
  and_then (Item.getitem (JObj d) k1)
    (fun o1 => and_then (Item.getitem o1 k2) (fun o2 => Item.getitem o2 k3)).

(** Lines 92 to 97 without the assignment: the header map the credential
    source gives, or the exception of the first step that fails. *)
Definition loaded_headers (E : Env) (a : string) : Result CaseInsensitiveDict :=
  and_then (if isfile E a then open_and_load E a else orjson_loads E a) CIDNew.make.

(** Lines 177 to 183: the request as [get] receives it. *)
Definition get_request (url_ : string) (params : json) (y : YTMusic)
  (h : CaseInsensitiveDict) : request :=
  {| url := url_; payload := params; sent_headers := h;
     sent_proxies := proxies y; sent_cookies := cookies y |}.

(** Lines 124 to 128 let construction go on: the first [setlocale] returns
    or raises [locale.Error], and in the second case so does the second. *)
Definition locale_settles (E : Env) (lng : string) : bool :=
  match setlocale E lng with
  | Ok _ => true
  | Raise e =>
      is_LocaleError e
      && match setlocale E "en_US.UTF-8" with
         | Ok _ => true
         | Raise e' => is_LocaleError e'
         end
  end.

(** The exception that gets out of line 110 when the visitor identity is
    missing: the one of [get_visitor_id], or else the one of [gather]. *)
Definition bootstrap_error (E : Env) : exn :=
  match get_visitor_id E with
  | Ok _ => TypeError "An asyncio.Future, a coroutine or an awaitable is required"
  | Raise e => e
  end.

(** The exception that gets out of lines 124 to 128 when they do not settle. *)
Definition locale_failure (E : Env) (lng : string) : exn :=
  match setlocale E lng with
  | Ok _ => LocaleError ""
  | Raise e =>
      if is_LocaleError e
      then match setlocale E "en_US.UTF-8" with
           | Ok _ => LocaleError ""
           | Raise e' => e'
           end
      else e
  end.

(** The object after lines 78 to 87. *)
Definition stored (a : init_args) : YTMusic :=
  with_cookies [("CONSENT", JStr "YES+1")]
    (with_proxies (arg_proxies a)
       (with_session (choose_session (arg_client_session a))
          (with_auth (arg_auth a) blank))).

(** The object a construction that went through all of [__init__] leaves:
    the arguments, the header map [h], the context [ctx], the language
    three times over and the signing secret, if any. *)
Definition built (a : init_args) (h : CaseInsensitiveDict) (ctx : dict)
  (secret : option string) : YTMusic :=
  {| auth := arg_auth a;
     _session := Some (choose_session (arg_client_session a));
     proxies := arg_proxies a;
     cookies := [("CONSENT", JStr "YES+1")];
     headers := Some h;
     context := Some ctx;
     language := Some (arg_language a);
     lang := Some [arg_language a];
     parser := Some [arg_language a];
     sapisid := secret |}.

(** Lines 90 to 106 as a relation: the header map [h] is what the
    credential source gives, or the default one when [auth] is falsy. *)
Definition headers_from (E : Env) (a : option string) (h : CaseInsensitiveDict) : Prop :=
  match a with
  | Some txt => if truthy txt then loaded_headers E txt = Ok h
                else h = initialize_headers E
  | None => h = initialize_headers E
  end.

(** Lines 134 and 135 as a relation between the context before and after. *)
Definition user_in (user : option string) (ctx ctx' : dict) : Prop :=
  match user with
  | Some u => if truthy u
              then Item.setitem3 ctx "context" "user" "onBehalfOfUser" (JStr u) = Ok ctx'
              else ctx' = ctx
  | None => ctx' = ctx
  end.

(** Lines 138 to 145 as a relation: the secret the helper finds in the
    cookie of [h], or none when [auth] is falsy. *)
Definition secret_from (E : Env) (a : option string) (h : CaseInsensitiveDict)
  (secret : option string) : Prop :=
  if truthy a
  then exists sec, sapisid_from_cookie E (CID.get "cookie" JNull h) = Ok sec
                   /\ secret = Some sec
  else secret = None.

(** A step that adds to the history nothing, or the one diagnostic of
    lines 100 to 103. *)
Definition prints_at_most_once {A} (m : M State A) : Prop :=
  forall s r s',
    m s = (r, s') ->
    world s' = world s
    \/ exists e, world s' = (world s ++ [EvPrint (credentials_diagnostic e)])%list.

(** Two objects that differ in their header map at most. *)
Definition same_but_headers (y y' : YTMusic) : Prop :=
  auth y' = auth y /\ _session y' = _session y /\ proxies y' = proxies y
  /\ cookies y' = cookies y /\ context y' = context y
  /\ language y' = language y /\ lang y' = lang y /\ parser y' = parser y
  /\ sapisid y' = sapisid y.

(* ------------------------------------------------------------------ *)
(** ** Facts about dicts and header maps *)

Module DictFacts.

Lemma get_set_same k v d : Dict.get k (Dict.set k v d) = Some v.
Proof.
  induction d as [|[k' v'] r IH]; simpl.
  - now rewrite String.eqb_refl.
  - destruct (String.eqb k k') eqn:Hk; simpl; rewrite Hk; auto.
Qed.

Lemma get_set_other k k' v d :
  k <> k' -> Dict.get k' (Dict.set k v d) = Dict.get k' d.
Proof.
  intros Hne. induction d as [|[k0 v0] r IH]; simpl.
  - destruct (String.eqb k' k) eqn:Hk; auto.
    apply String.eqb_eq in Hk. congruence.
  - destruct (String.eqb k k0) eqn:Hk; simpl.
    + apply String.eqb_eq in Hk. subst k0.
      destruct (String.eqb k' k) eqn:Hk'; auto.
      apply String.eqb_eq in Hk'. congruence.
    + now rewrite IH.
Qed.

Lemma get_keys_none k d :
  existsb (String.eqb k) (Dict.keys d) = false -> Dict.get k d = None.
Proof.
  induction d as [|[k' v'] r IH]; simpl; auto.
  destruct (String.eqb k k'); simpl; auto. discriminate.
Qed.

Lemma get_fold k other ks d :
  Dict.get k
    (fold_left (fun acc k0 => match Dict.get k0 other with
                              | Some v => Dict.set k0 v acc
                              | None => acc
                              end) ks d)
  = if existsb (String.eqb k) ks
    then match Dict.get k other with Some v => Some v | None => Dict.get k d end
    else Dict.get k d.
Proof.
  revert d. induction ks as [|a ks IH]; intros d; simpl; auto.
  rewrite IH. destruct (String.eqb k a) eqn:Hka; simpl.
  - apply String.eqb_eq in Hka. subst a.
    destruct (Dict.get k other) as [v|] eqn:Hv.
    + rewrite get_set_same. now destruct (existsb _ ks).
    + now destruct (existsb _ ks).
  - assert (Hd : Dict.get k
              (match Dict.get a other with
               | Some v => Dict.set a v d
               | None => d
               end) = Dict.get k d).
    { destruct (Dict.get a other); auto. apply get_set_other.
      intros ->. now rewrite String.eqb_refl in Hka. }
    now rewrite Hd.
Qed.

(** After [d.update(other)] a key of [other] has [other]'s value and
    every other key has the value it had. *)
Lemma get_update k d other :
  Dict.get k (Dict.update d other)
  = match Dict.get k other with Some v => Some v | None => Dict.get k d end.
Proof.
  unfold Dict.update. rewrite get_fold.
  destruct (existsb (String.eqb k) (Dict.keys other)) eqn:Hex; auto.
  now rewrite (get_keys_none _ _ Hex).
Qed.

End DictFacts.

Module CIDFacts.

Lemma find_store_same lk e h : CID.find lk (CID.store lk e h) = Some e.
Proof.
  induction h as [|[k' e'] r IH]; simpl.
  - now rewrite String.eqb_refl.
  - destruct (String.eqb lk k') eqn:Hk; simpl; rewrite Hk; auto.
Qed.

Lemma find_store_other lk lk' e h :
  lk <> lk' -> CID.find lk' (CID.store lk e h) = CID.find lk' h.
Proof.
  intros Hne. induction h as [|[k0 e0] r IH]; simpl.
  - destruct (String.eqb lk' lk) eqn:Hk; auto.
    apply String.eqb_eq in Hk. congruence.
  - destruct (String.eqb lk k0) eqn:Hk; simpl.
    + apply String.eqb_eq in Hk. subst k0.
      destruct (String.eqb lk' lk) eqn:Hk'; auto.
      apply String.eqb_eq in Hk'. congruence.
    + now rewrite IH.
Qed.

Lemma get_setitem_same key v default h :
  CID.get key default (CID.setitem key v h) = v.
Proof. unfold CID.get, CID.setitem. now rewrite find_store_same. Qed.

(** Any spelling of the key reads the value written. *)
Lemma get_setitem_spelling key key' v default h :
  Text.lower key' = Text.lower key ->
  CID.get key' default (CID.setitem key v h) = v.
Proof. unfold CID.get, CID.setitem. intros ->. now rewrite find_store_same. Qed.

Lemma get_setitem_other key key' v default h :
  Text.lower key' <> Text.lower key ->
  CID.get key' default (CID.setitem key v h) = CID.get key' default h.
Proof.
  unfold CID.get, CID.setitem. intros Hne.
  rewrite find_store_other; auto.
Qed.

Lemma contains_setitem_same key v h :
  CID.contains key (CID.setitem key v h) = true.
Proof. unfold CID.contains, CID.setitem. now rewrite find_store_same. Qed.

Lemma contains_setitem_other key key' v h :
  Text.lower key' <> Text.lower key ->
  CID.contains key' (CID.setitem key v h) = CID.contains key' h.
Proof.
  unfold CID.contains, CID.setitem. intros Hne.
  rewrite find_store_other; auto.
Qed.

End CIDFacts.

(* ------------------------------------------------------------------ *)
(** ** How one call runs *)

Section Runs.

Variable E : Env.

Lemma merge_context_run body s :
  merge_context body s
  = match context (self s) with
    | Some ctx => (Ok (Dict.update body ctx), s)
    | None => (Raise (no_attribute "context"), s)
    end.
Proof.
  unfold merge_context, bind, attr, ret, no_attribute.
  now destruct (context (self s)).
Qed.

Lemma sign_run s :
  sign E s
  = if truthy (auth (self s)) then
      match headers (self s) with
      | None => (Raise (no_attribute "headers"), s)
      | Some h =>
          match sapisid (self s) with
          | None => (Raise (no_attribute "sapisid"), s)
          | Some secret =>
              match Item.concat_str (secret ++ " ") (origin_of h) with
              | Raise e => (Raise e, s)
              | Ok arg => (Ok tt, signed E s h arg)
              end
          end
      end
    else (Ok tt, s).
Proof.
  unfold sign, bind, gets, attr, lift, get_authorization, emit, modify, on_self,
    ret, signed, no_attribute.
  simpl.
  destruct (truthy (auth (self s))); auto.
  destruct (headers (self s)) as [h|] eqn:Hh; auto.
  destruct (sapisid (self s)) as [secret|]; auto.
  destruct (Item.concat_str (secret ++ " ") (origin_of h)) as [arg|e]; auto.
  simpl. now rewrite Hh.
Qed.

Lemma dispatch_run endpoint body additionalParams s :
  dispatch E endpoint body additionalParams s
  = match headers (self s) with
    | None => (Raise (no_attribute "headers"), s)
    | Some h =>
        let rq := post_request E endpoint body additionalParams (self s) h in
        (and_then (session_post E (world s) rq) read_response, posted E s rq)
    end.
Proof.
  unfold dispatch, bind, gets, attr, lift, emit, modify, posted, no_attribute.
  simpl.
  destruct (headers (self s)) as [h|]; auto.
  simpl. now destruct (session_post E (world s) _).
Qed.

Lemma send_request_run endpoint body additionalParams s :
  run_of E endpoint body additionalParams s
    (_send_request E endpoint body additionalParams s).
Proof.
  unfold _send_request. rewrite merge_context_run.
  destruct (context (self s)) as [ctx|] eqn:Hctx.
  2: { now apply run_no_context. }
  unfold bind. destruct (sign E s) as [[[]|e] s1] eqn:Hsign.
  - rewrite dispatch_run. destruct (headers (self s1)) as [h|] eqn:Hh.
    + now apply run_posted.
    + rewrite sign_run in Hsign.
      destruct (truthy (auth (self s))).
      * (* the signing step never leaves the object without headers *)
        exfalso.
        destruct (headers (self s)); try discriminate.
        destruct (sapisid (self s)); try discriminate.
        destruct (Item.concat_str _ _); try discriminate.
        inversion Hsign; subst s1. discriminate.
      * (* unauthenticated and no headers: the POST is not reached *)
        inversion Hsign; subst s1. now apply run_stopped.
  - assert (s1 = s) as ->.
    { rewrite sign_run in Hsign.
      destruct (truthy (auth (self s))); [|discriminate].
      destruct (headers (self s)); [|now inversion Hsign].
      destruct (sapisid (self s)); [|now inversion Hsign].
      destruct (Item.concat_str _ _); now inversion Hsign. }
    now apply run_stopped.
Qed.

End Runs.

Section CallFacts.

Variable E : Env.

Lemma concat_str_ok prefix value arg :
  Item.concat_str prefix value = Ok arg ->
  exists o, value = JStr o /\ arg = prefix ++ o.
Proof.
  destruct value; simpl; try discriminate.
  intros H. inversion H. eauto.
Qed.

(** When the signing step returns, either the client is unauthenticated
    and nothing happened, or the token of this call sits in the header
    map of the object. *)
Lemma sign_ok s s1 :
  sign E s = (Ok tt, s1) ->
  (truthy (auth (self s)) = false /\ s1 = s)
  \/ (truthy (auth (self s)) = true
      /\ exists h secret o,
           headers (self s) = Some h /\ sapisid (self s) = Some secret
           /\ origin_of h = JStr o
           /\ s1 = signed E s h ((secret ++ " ") ++ o)).
Proof.
  rewrite sign_run. destruct (truthy (auth (self s))).
  - destruct (headers (self s)) as [h|]; try discriminate.
    destruct (sapisid (self s)) as [secret|]; try discriminate.
    destruct (Item.concat_str (secret ++ " ") (origin_of h)) as [arg|] eqn:Hc;
      try discriminate.
    intros H. inversion H. right. split; auto.
    destruct (concat_str_ok _ _ Hc) as (o & Ho & ->).
    exists h, secret, o. auto.
  - intros H. inversion H. now left.
Qed.

(** The events of one call, after the history it started from. *)
Lemma sign_ok_events s s1 :
  sign E s = (Ok tt, s1) ->
  exists pre, world s1 = (world s ++ pre)%list
              /\ (pre = [] \/ pre = [EvTime (time_now E (world s))]).
Proof.
  intros H. destruct (sign_ok _ H) as [[_ ->]|(_ & h & secret & o & _ & _ & _ & ->)].
  - exists []. rewrite app_nil_r. auto.
  - exists [EvTime (time_now E (world s))]. auto.
Qed.

Lemma no_new_events (w : World) evs : w = (w ++ evs)%list -> evs = [].
Proof.
  intros H. apply (app_inv_head w). now rewrite app_nil_r.
Qed.

(** Every POST among the events of a call is the one of [run_posted]. *)
Lemma posted_events s s1 rq evs rq' answer :
  sign E s = (Ok tt, s1) ->
  world (posted E s1 rq) = (world s ++ evs)%list ->
  In (EvPost rq' answer) evs ->
  rq' = rq /\ answer = session_post E (world s1) rq.
Proof.
  intros Hsign Hw Hin.
  destruct (sign_ok_events _ Hsign) as (pre & Hpre & Hshape).
  simpl in Hw. rewrite Hpre, <- app_assoc in Hw.
  apply app_inv_head in Hw. subst evs.
  apply in_app_or in Hin. destruct Hin as [Hin|[Heq|[]]].
  - destruct Hshape as [->| ->]; simpl in Hin; [tauto|].
    destruct Hin as [Hin|[]]; discriminate.
  - inversion Heq. rewrite <- Hpre. auto.
Qed.

Lemma posted_no_clock s s1 rq evs t :
  sign E s = (Ok tt, s1) ->
  truthy (auth (self s)) = false ->
  world (posted E s1 rq) = (world s ++ evs)%list ->
  ~ In (EvTime t) evs.
Proof.
  intros Hsign Hauth Hw Hin.
  destruct (sign_ok _ Hsign) as [[_ ->]|(Ht & _)]; [|congruence].
  simpl in Hw. apply app_inv_head in Hw. subst evs.
  destruct Hin as [Hin|[]]. discriminate.
Qed.

End CallFacts.

(* ------------------------------------------------------------------ *)
(** ** [_send_request]: the body *)

(** C10.  Every call of [_send_request] on a client whose context is set
    merges the context into the dict the caller passed: after the call that
    dict is [body.update(self.context)], so every top-level key of the
    context (the key "context" among them) holds the client's value, every
    other key holds the caller's value, and the dict transmitted as JSON is
    this updated dict. *)
Theorem send_request_merges_context_into_body
  (E : Env) (endpoint : string) (body : dict) (additionalParams : string)
  (s : State) (ctx : dict) :
  context (self s) = Some ctx ->
  let o := _send_request E endpoint body additionalParams s in
  body_after o = Dict.update body ctx
  /\ (forall k v, Dict.get k ctx = Some v -> Dict.get k (body_after o) = Some v)
  /\ (forall k, Dict.get k ctx = None -> Dict.get k (body_after o) = Dict.get k body)
  /\ (forall evs rq answer,
         world (state_after o) = (world s ++ evs)%list ->
         In (EvPost rq answer) evs ->
         payload rq = JObj (body_after o)).
Proof.
  intros Hctx o.
  assert (Hbody : body_after o = Dict.update body ctx).
  { subst o. destruct (send_request_run E endpoint body additionalParams s);
      simpl; congruence. }
  split; [exact Hbody|]. rewrite Hbody.
  split; [|split].
  - intros k v Hk. now rewrite DictFacts.get_update, Hk.
  - intros k Hk. now rewrite DictFacts.get_update, Hk.
  - subst o. intros evs rq answer.
    destruct (send_request_run E endpoint body additionalParams s)
      as [e Hc|ctx' e Hc|ctx' s1 h Hc Hsign Hh rq0]; simpl.
    + congruence.
    + intros Hw Hin. apply no_new_events in Hw. subst evs. destruct Hin.
    + intros Hw Hin.
      destruct (@posted_events E s s1 rq0 evs rq answer Hsign Hw Hin) as [-> _].
      subst rq0. simpl. congruence.
Qed.

Lemma send_request_merges_context_into_body_witness :
  context (self Demo.start) = Some Demo.client_context
  /\ Dict.get "context" Demo.search_body = Some (JStr "mine")
  /\ Dict.get "context"
       (body_after (_send_request Demo.ok_env "search" Demo.search_body "" Demo.start))
     = Dict.get "context" Demo.client_context.
Proof.
  split; [reflexivity|]. split; [reflexivity|].
  apply (proj1 (proj2 (send_request_merges_context_into_body Demo.ok_env "search"
                         Demo.search_body "" Demo.start eq_refl))).
  reflexivity.
Defined.

(* ------------------------------------------------------------------ *)
(** ** [_send_request]: the answer *)

(** C6.  When the POST of a call is answered with status 200 and a body
    that decodes to the JSON value [j], the call returns [j] itself. *)
Theorem ok_response_is_returned_unmodified
  (E : Env) (endpoint : string) (body : dict) (additionalParams : string)
  (s : State) (evs : list event) (rq : request) (r : response) (j : json) :
  let o := _send_request E endpoint body additionalParams s in
  world (state_after o) = (world s ++ evs)%list ->
  In (EvPost rq (Ok r)) evs ->
  status r = 200%Z ->
  json_body r = Ok j ->
  returned o = Ok j.
Proof.
  intros o. subst o.
  destruct (send_request_run E endpoint body additionalParams s)
    as [e Hc|ctx e Hc|ctx s1 h Hc Hsign Hh rq0]; simpl; intros Hw Hin Hst Hj.
  - apply no_new_events in Hw. subst evs. destruct Hin.
  - apply no_new_events in Hw. subst evs. destruct Hin.
  - destruct (@posted_events E s s1 rq0 evs rq (Ok r) Hsign Hw Hin) as [_ Hans].
    rewrite <- Hans. simpl. unfold read_response.
    rewrite Hj, Hst. reflexivity.
Qed.

Lemma ok_response_is_returned_unmodified_witness :
  let o := _send_request Demo.ok_env "search" Demo.search_body "" Demo.start in
  let j := JObj [("contents", JArr [JInt 1; JNull])] in
  (exists evs rq r,
      world (state_after o) = (world Demo.start ++ evs)%list
      /\ In (EvPost rq (Ok r)) evs /\ status r = 200%Z /\ json_body r = Ok j)
  /\ returned o = Ok j.
Proof.
  intros o j. split.
  - eexists [_; EvPost _ (Ok _)], _, _.
    split; [reflexivity|]. split; [right; left; reflexivity|].
    split; reflexivity.
  - eapply (@ok_response_is_returned_unmodified Demo.ok_env "search"
              Demo.search_body "" Demo.start
              [_; EvPost _ (Ok _)] _ _ j).
    + reflexivity.
    + right; left; reflexivity.
    + reflexivity.
    + reflexivity.
Defined.

(* ------------------------------------------------------------------ *)
(** ** [_send_request]: unauthenticated clients *)

(** On a client whose [auth] is falsy a call skips the signing step: the
    object is left as it was, the clock is not read, and the headers of the
    POST are the header map of the client as it stands. *)
Lemma falsy_auth_skips_signing
  (E : Env) (endpoint : string) (body : dict) (additionalParams : string)
  (s : State) :
  truthy (auth (self s)) = false ->
  let o := _send_request E endpoint body additionalParams s in
  self (state_after o) = self s
  /\ forall evs,
       world (state_after o) = (world s ++ evs)%list ->
       (forall t, ~ In (EvTime t) evs)
       /\ (forall rq answer,
             In (EvPost rq answer) evs ->
             headers (self s) = Some (sent_headers rq)
             /\ (forall h, headers (self s) = Some h ->
                   CID.contains "Authorization" h = false ->
                   CID.contains "Authorization" (sent_headers rq) = false)).
Proof.
  intros Hauth o. subst o.
  destruct (send_request_run E endpoint body additionalParams s)
    as [e Hc|ctx e Hc|ctx s1 h Hc Hsign Hh rq0]; simpl.
  - split; auto. intros evs Hw. apply no_new_events in Hw. subst evs.
    split; intros; intro || idtac; simpl in *; tauto.
  - split; auto. intros evs Hw. apply no_new_events in Hw. subst evs.
    split; intros; intro || idtac; simpl in *; tauto.
  - assert (Hs1 : s1 = s).
    { destruct (@sign_ok E s s1 Hsign) as [[_ ?]|[? _]]; congruence. }
    split; [now rewrite Hs1|].
    intros evs Hw. split.
    + intros t. apply (@posted_no_clock E s s1 rq0 evs t Hsign Hauth Hw).
    + intros rq answer Hin.
      destruct (@posted_events E s s1 rq0 evs rq answer Hsign Hw Hin) as [-> _].
      subst rq0 s1. simpl. split; [assumption|].
      intros h0 Hh0 Hno. congruence.
Qed.

(* ------------------------------------------------------------------ *)
(** ** [_send_request]: the signing step and the shared header map *)

Section Signing.

Variable E : Env.

(** An authenticated call whose origin is a string runs all the way to the
    POST, through the state [signed] in which the header map of the object
    holds the token of this call. *)
Lemma authenticated_call_run endpoint body additionalParams s h secret o ctx :
  truthy (auth (self s)) = true ->
  headers (self s) = Some h ->
  sapisid (self s) = Some secret ->
  origin_of h = JStr o ->
  context (self s) = Some ctx ->
  let s1 := signed E s h ((secret ++ " ") ++ o) in
  let h' := CID.setitem "Authorization"
              (JStr (authorization E (time_now E (world s)) ((secret ++ " ") ++ o))) h in
  let rq := post_request E endpoint (Dict.update body ctx) additionalParams (self s1) h' in
  _send_request E endpoint body additionalParams s
  = {| returned := and_then (session_post E (world s1) rq) read_response;
       body_after := Dict.update body ctx;
       state_after := posted E s1 rq |}.
Proof.
  intros Hauth Hh Hs Ho Hctx s1 h' rq.
  unfold _send_request. rewrite merge_context_run, Hctx.
  unfold bind. rewrite sign_run, Hauth, Hh, Hs, Ho. simpl.
  rewrite dispatch_run. reflexivity.
Qed.

Lemma lower_Authorization : Text.lower "Authorization" = "authorization".
Proof. reflexivity. Qed.

Lemma origin_of_signed token h :
  origin_of (CID.setitem "Authorization" token h) = origin_of h.
Proof.
  unfold origin_of.
  rewrite !CIDFacts.get_setitem_other; auto; discriminate.
Qed.

End Signing.

(** C1, as the code has it.  An authenticated call (the header map holds a
    string origin) writes the Authorization value it computes into the
    header map of the client itself: after the call the shared map is the
    old one with the entry Authorization set to this call's token, every
    other entry as it was; the headers of the POST are this updated shared
    map, so they carry the call's own token.  A second call on the same
    client overwrites the entry with its own token, and its POST carries
    that one. *)
Theorem signing_writes_into_shared_headers
  (E : Env) (endpoint : string) (body : dict) (additionalParams : string)
  (s : State) (h : CaseInsensitiveDict) (secret o : string) (ctx : dict) :
  truthy (auth (self s)) = true ->
  headers (self s) = Some h ->
  sapisid (self s) = Some secret ->
  origin_of h = JStr o ->
  context (self s) = Some ctx ->
  let t := time_now E (world s) in
  let token := authorization E t ((secret ++ " ") ++ o) in
  let h' := CID.setitem "Authorization" (JStr token) h in
  let out := _send_request E endpoint body additionalParams s in
  headers (self (state_after out)) = Some h'
  /\ (exists rq answer,
         world (state_after out) = (world s ++ [EvTime t; EvPost rq answer])%list
         /\ sent_headers rq = h')
  /\ CID.get "Authorization" JNull h' = JStr token
  /\ (forall k d, Text.lower k <> "authorization" -> CID.get k d h' = CID.get k d h)
  /\ (forall endpoint2 body2 additionalParams2,
         let s2 := state_after out in
         let t2 := time_now E (world s2) in
         let token2 := authorization E t2 ((secret ++ " ") ++ o) in
         let out2 := _send_request E endpoint2 body2 additionalParams2 s2 in
         headers (self (state_after out2))
         = Some (CID.setitem "Authorization" (JStr token2) h')
         /\ exists rq2 answer2,
             world (state_after out2) = (world s2 ++ [EvTime t2; EvPost rq2 answer2])%list
             /\ CID.get "Authorization" JNull (sent_headers rq2) = JStr token2).
Proof.
  intros Hauth Hh Hs Ho Hctx t token h' out.
  assert (Hout := authenticated_call_run E endpoint body additionalParams s
                    Hauth Hh Hs Ho Hctx).
  simpl in Hout. fold t token h' in Hout. fold out in Hout.
  split; [now rewrite Hout|].
  split.
  { rewrite Hout. simpl. rewrite <- app_assoc. simpl. eauto. }
  split; [apply CIDFacts.get_setitem_same|].
  split.
  { intros k d Hk. apply CIDFacts.get_setitem_other.
    now rewrite lower_Authorization. }
  intros endpoint2 body2 additionalParams2 s2 t2 token2 out2.
  assert (Hout2 := authenticated_call_run E endpoint2 body2 additionalParams2 s2
                     (h := h') (secret := secret) (o := o) (ctx := ctx)).
  assert (Hs2 : self s2 = with_headers h' (self s)).
  { subst s2. now rewrite Hout. }
  rewrite Hs2 in Hout2. simpl in Hout2.
  specialize (Hout2 Hauth eq_refl Hs).
  unfold h' in Hout2 at 1. rewrite origin_of_signed in Hout2.
  specialize (Hout2 Ho Hctx).
  fold t2 token2 in Hout2. fold out2 in Hout2.
  split; [now rewrite Hout2|].
  rewrite Hout2. simpl. rewrite <- app_assoc. simpl.
  do 2 eexists. split; [reflexivity|].
  simpl. apply CIDFacts.get_setitem_same.
Qed.

Lemma signing_writes_into_shared_headers_witness :
  let out := _send_request Demo.ok_env "search" Demo.search_body "" Demo.start in
  (truthy (auth (self Demo.start)) = true
   /\ headers (self Demo.start) = Some Demo.client_headers
   /\ sapisid (self Demo.start) = Some "s3cr3t"
   /\ origin_of Demo.client_headers = JStr "https://music.youtube.com"
   /\ context (self Demo.start) = Some Demo.client_context)
  /\ headers (self (state_after out))
     = Some (CID.setitem "Authorization"
               (JStr (authorization Demo.ok_env (time_now Demo.ok_env [])
                        (("s3cr3t" ++ " ") ++ "https://music.youtube.com")))
               Demo.client_headers).
Proof.
  intros out. split.
  - repeat split; reflexivity.
  - apply (proj1 (@signing_writes_into_shared_headers Demo.ok_env "search"
                    Demo.search_body "" Demo.start Demo.client_headers
                    "s3cr3t" "https://music.youtube.com" Demo.client_context
                    eq_refl eq_refl eq_refl eq_refl eq_refl)).
Defined.

(** C1, as the claim has it, fails: the call below is authenticated, and
    the header map of the client after it is not the one before it (it has
    gained the entry Authorization). *)
Lemma signing_changes_the_shared_header_map :
  let out := _send_request Demo.ok_env "search" Demo.search_body "" Demo.start in
  truthy (auth (self Demo.start)) = true
  /\ headers (self (state_after out)) <> headers (self Demo.start)
  /\ (forall h, headers (self Demo.start) = Some h ->
        CID.contains "Authorization" h = false)
  /\ (forall h, headers (self (state_after out)) = Some h ->
        CID.contains "Authorization" h = true).
Proof.
  intros out. split; [reflexivity|]. split; [|split].
  - vm_compute. discriminate.
  - intros h Hh. vm_compute in Hh. inversion Hh. reflexivity.
  - intros h Hh. vm_compute in Hh. inversion Hh. reflexivity.
Qed.

(* ------------------------------------------------------------------ *)
(** ** [_send_request]: answers with status 400 and above *)

Lemma append_assoc (a b c : string) : (a ++ b) ++ c = a ++ b ++ c.
Proof. induction a as [|x a IH]; simpl; congruence. Qed.

Lemma append_nil_r (a : string) : a ++ "" = a.
Proof. induction a as [|x a IH]; simpl; congruence. Qed.

(** Line 173 is reached with a string to append only when the body has the
    shape [{"error": {"message": <str>}}]; the exception then carries the
    status line and that message. *)
Lemma read_response_api_error (r : response) (j : json) (m : string) (code : Z) :
  json_body r = Ok j ->
  (400 <= status r)%Z ->
  status_code r = Some code ->
  error_message_of j = Some m ->
  read_response r
  = Raise (Exception (("Server returned HTTP " ++ Text.str code ++ ": "
                       ++ reason r ++ "." ++ Text.nl) ++ m)).
Proof.
  intros Hj Hst Hcode Hm. unfold read_response, error_prefix.
  rewrite Hj. simpl. apply Z.leb_le in Hst. rewrite Hst, Hcode. simpl.
  destruct j as [| | | | |items|d]; try discriminate. simpl in *.
  destruct (Dict.get "error" d) as [[| | | | | |e]|]; try discriminate. simpl.
  destruct (Dict.get "message" e) as [[| | | |m'| |]|]; try discriminate.
  simpl. congruence.
Qed.

(** C3, what the code does where the claim promises a fallback.  When the
    answer has status 400 or above and its decoded body has no string at
    [error.message], line 173 is not reached with a message to raise: the
    call ends in an exception that is not the [Exception] of line 173 (a
    TypeError from appending [None], or an AttributeError), so there is no
    generic fallback message. *)
Theorem error_body_without_message_has_no_fallback (r : response) (j : json) :
  json_body r = Ok j ->
  (400 <= status r)%Z ->
  error_message_of j = None ->
  exists e, read_response r = Raise e /\ forall m, e <> Exception m.
Proof.
  intros Hj Hst Hm. unfold read_response, error_prefix.
  rewrite Hj. simpl. apply Z.leb_le in Hst. rewrite Hst.
  destruct (status_code r) as [code|]; simpl.
  2: { eexists; split; [reflexivity|discriminate]. }
  destruct j as [| | | | |items|d]; simpl;
    try (eexists; split; [reflexivity|discriminate]).
  simpl in Hm.
  destruct (Dict.get "error" d) as [[| | | | | |e]|]; simpl;
    try (eexists; split; [reflexivity|discriminate]).
  destruct (Dict.get "message" e) as [[| | | |m'| |]|]; simpl;
    try discriminate;
    try (eexists; split; [reflexivity|discriminate]).
Qed.

Lemma error_body_without_message_has_no_fallback_witness :
  let r := {| status := 500; status_code := Some 500%Z;
              reason := "Internal Server Error"; text := "";
              json_body := Ok (JObj []) |} in
  (json_body r = Ok (JObj []) /\ (400 <= status r)%Z
   /\ error_message_of (JObj []) = None)
  /\ exists e, read_response r = Raise e /\ forall m, e <> Exception m.
Proof.
  intros r. split.
  - repeat split. simpl. lia.
  - apply (@error_body_without_message_has_no_fallback r (JObj [])).
    + reflexivity.
    + simpl. lia.
    + reflexivity.
Defined.

(** The two answers of the claim, run through a whole call: the one with
    the expected shape, and an empty error object. *)
Example status_401_with_message :
  returned (_send_request
              (Demo.env (Demo.answer 401 "Unauthorized"
                           (JObj [("error", JObj [("message", JStr "x")])])))
              "search" Demo.search_body "" Demo.start)
  = Raise (Exception ("Server returned HTTP 401: Unauthorized." ++ Text.nl ++ "x")).
Proof. reflexivity. Qed.

Example status_500_without_message :
  returned (_send_request
              (Demo.env (Demo.answer 500 "Internal Server Error" (JObj [])))
              "search" Demo.search_body "" Demo.start)
  = Raise (TypeError "can only concatenate str to str").
Proof. reflexivity. Qed.

(** A response object that has [status] and no [status_code], as line 164
    reads the one and line 167 the other. *)
Example status_401_without_status_code :
  returned (_send_request
              (Demo.env (Ok {| status := 401; status_code := None;
                               reason := "Unauthorized"; text := "";
                               json_body := Ok (JObj [("error",
                                              JObj [("message", JStr "x")])]) |}))
              "search" Demo.search_body "" Demo.start)
  = Raise (AttributeError "response object has no attribute 'status_code'").
Proof. reflexivity. Qed.

(* ------------------------------------------------------------------ *)
(** ** [__init__]: loading the credentials *)

(** C2, as the code has it.  When the credential source cannot be loaded
    (it names a file that cannot be opened and decoded, or it names no file
    and is not JSON text), lines 99 to 103 catch the error and print the
    diagnostic; the loading step returns normally and assigns no header
    set, and the constructor goes on from there with [self.headers]
    unassigned. *)
Theorem malformed_credentials_are_printed_not_raised
  (E : Env) (a : string) (e : exn) :
  truthy a = true ->
  (if isfile E a then open_and_load E a else orjson_loads E a) = Raise e ->
  (forall s,
      prepare_headers E (Some a) s
      = (Ok tt, {| self := self s;
                   world := (world s ++ [EvPrint (credentials_diagnostic e)])%list |}))
  /\ (forall args w,
         arg_auth args = Some a ->
         exists s1,
           bind (store_arguments args) (fun _ => prepare_headers E (arg_auth args))
                {| self := blank; world := w |} = (Ok tt, s1)
           /\ headers (self s1) = None
           /\ world s1 = (w ++ [EvPrint (credentials_diagnostic e)])%list).
Proof.
  intros Ha Hload.
  assert (Hstep : forall s,
             prepare_headers E (Some a) s
             = (Ok tt, {| self := self s;
                          world := (world s ++ [EvPrint (credentials_diagnostic e)])%list |})).
  { intros s. unfold prepare_headers. rewrite Ha.
    unfold catch, load_credentials.
    destruct (isfile E a); unfold bind, lift; rewrite Hload; reflexivity. }
  split; [exact Hstep|].
  intros args w Hargs. rewrite Hargs.
  unfold bind at 1.
  destruct (store_arguments args {| self := blank; world := w |}) as [r s0] eqn:Hs0.
  unfold store_arguments, bind, on_self, modify in Hs0. simpl in Hs0.
  inversion Hs0; subst r s0. clear Hs0.
  rewrite Hstep. eexists. split; [reflexivity|]. split; reflexivity.
Qed.

Lemma malformed_credentials_are_printed_not_raised_witness :
  (truthy "not json" = true
   /\ (if isfile Demo.ok_env "not json"
       then open_and_load Demo.ok_env "not json"
       else orjson_loads Demo.ok_env "not json")
      = Raise (LibraryError "JSONDecodeError"
                 "unexpected character: line 1 column 1 (char 0)"))
  /\ fst (prepare_headers Demo.ok_env (Some "not json") {| self := blank; world := [] |})
     = Ok tt.
Proof.
  split; [split; reflexivity|].
  rewrite (proj1 (@malformed_credentials_are_printed_not_raised Demo.ok_env
                    "not json" _ eq_refl eq_refl)).
  reflexivity.
Defined.

(** C2, as the claim has it, fails: the text below is no file and no JSON,
    yet the loading step raises nothing; the constructor goes on, and what
    ends it is the AttributeError of line 108, where the header map that
    was never assigned is read, and not an [Exception] of ytmusic.py. *)
Lemma malformed_credentials_raise_no_credential_error :
  let run := construct Demo.ok_env (Demo.args (Some "not json") "en") [] in
  isfile Demo.ok_env "not json" = false
  /\ is_ok (orjson_loads Demo.ok_env "not json") = false
  /\ fst (prepare_headers Demo.ok_env (Some "not json") {| self := blank; world := [] |})
     = Ok tt
  /\ fst run = Raise (AttributeError "'YTMusic' object has no attribute 'headers'")
  /\ (forall m, fst run <> Raise (Exception m))
  /\ headers (self (snd run)) = None.
Proof.
  intros run. repeat split; try reflexivity.
  intros m. vm_compute. discriminate.
Qed.

(* ------------------------------------------------------------------ *)
(** ** [__init__]: the visitor identity *)

(** C8, what the code does.  When the header map lacks
    [x-goog-visitor-id], line 110 hands [asyncio.gather] a list, not an
    awaitable, and subscripts what it gets instead of awaiting it: the
    step always raises, whatever [get_visitor_id] returned, and leaves the
    header map and the history as they were, so no identity is merged and
    no GET is awaited. *)
Theorem visitor_id_is_never_resolved
  (E : Env) (s : State) (h : CaseInsensitiveDict) :
  headers (self s) = Some h ->
  CID.contains "x-goog-visitor-id" h = false ->
  exists e, resolve_visitor_id E s = (Raise e, s).
Proof.
  intros Hh Hno. unfold resolve_visitor_id, bind, attr.
  rewrite Hh, Hno. simpl. unfold lift.
  destruct (get_visitor_id E) as [c|e]; eauto.
Qed.

Lemma visitor_id_is_never_resolved_witness :
  let s := {| self := with_headers (CID.update [] Demo.bundle_without_visitor) blank;
              world := [] |} in
  (headers (self s) = Some (CID.update [] Demo.bundle_without_visitor)
   /\ CID.contains "x-goog-visitor-id" (CID.update [] Demo.bundle_without_visitor) = false)
  /\ exists e, resolve_visitor_id Demo.ok_env s = (Raise e, s).
Proof.
  intros s. split; [split; reflexivity|].
  apply (@visitor_id_is_never_resolved Demo.ok_env s
           (CID.update [] Demo.bundle_without_visitor)); reflexivity.
Defined.

(** A whole construction from a bundle without the visitor identity. *)
Example construction_without_visitor_id :
  let run := construct Demo.ok_env (Demo.args (Some "<bundle without visitor id>") "en") [] in
  fst run = Raise (TypeError "An asyncio.Future, a coroutine or an awaitable is required")
  /\ headers (self (snd run)) = Some (CID.update [] Demo.bundle_without_visitor)
  /\ world (snd run) = [].
Proof. repeat split. Qed.

(** With the identity in the bundle the step does nothing. *)
Lemma visitor_id_present (E : Env) (s : State) (h : CaseInsensitiveDict) :
  headers (self s) = Some h ->
  CID.contains "x-goog-visitor-id" h = true ->
  resolve_visitor_id E s = (Ok tt, s).
Proof.
  intros Hh Hyes. unfold resolve_visitor_id, bind, attr.
  now rewrite Hh, Hyes.
Qed.

(* ------------------------------------------------------------------ *)
(** ** [__init__]: the language *)

Lemma occurs_join (sep l : string) (items : list string) :
  In l items -> Text.occurs l (Text.join sep items).
Proof.
  unfold Text.join. induction items as [|x xs IH]; [intros []|].
  intros [->|Hin].
  - destruct xs as [|y ys]; simpl.
    + exists "", "". simpl. now rewrite append_nil_r.
    + exists "", (sep ++ String.concat sep (y :: ys)). reflexivity.
  - destruct xs as [|y ys]; [destruct Hin|].
    destruct (IH Hin) as (pre & post & Heq).
    exists (x ++ sep ++ pre), post.
    change (String.concat sep (x :: y :: ys))
      with (x ++ sep ++ String.concat sep (y :: ys)).
    rewrite Heq. now rewrite !append_assoc.
Qed.

(** When the language is not among the names [os.listdir] finds in the
    locales directory, construction never returns a client; when the steps
    ahead of the check (lines 78 to 115) pass, it ends in the [Exception]
    of line 119, the only class ytmusic.py raises.  The receiver of [join]
    is the two adjacent literals of lines 120 and 121 taken together, so
    the message is the supported names in directory order with that whole
    text between them. *)
Lemma unsupported_language_is_refused
  (E : Env) (a : init_args) (w : World) (supported : list string) :
  listdir_locales E = Ok supported ->
  existsb (String.eqb (arg_language a)) supported = false ->
  (forall y, fst (construct E a w) <> Ok y)
  /\ (forall s1,
         until_context E a {| self := blank; world := w |} = (Ok tt, s1) ->
         fst (construct E a w) = Raise (Exception (unsupported_language supported)))
  /\ unsupported_language supported
     = Text.join "Language not supported. Supported languages are , " supported
  /\ (forall l, In l supported -> Text.occurs l (unsupported_language supported)).
Proof.
  intros Hdir Hnot.
  assert (Hrun : forall r s1,
             until_context E a {| self := blank; world := w |} = (r, s1) ->
             fst (construct E a w)
             = match r with
               | Ok _ => Raise (Exception (unsupported_language supported))
               | Raise e => Raise e
               end).
  { intros r s1 Hpre. unfold construct, __init__, until_user.
    unfold bind at 1. unfold bind at 1. rewrite Hpre.
    destruct r as [[]|e]; [|reflexivity].
    unfold bind at 1. unfold validate_language, bind, lift.
    rewrite Hdir, Hnot. reflexivity. }
  split; [|split; [|split]].
  - intros y.
    rewrite (Hrun _ _ (surjective_pairing _)).
    destruct (fst (until_context E a {| self := blank; world := w |}));
      discriminate.
  - intros s1 Hpre. now rewrite (Hrun _ _ Hpre).
  - reflexivity.
  - intros l Hin. now apply occurs_join.
Qed.

(** C4, what the code does.  With the locales de, en and fr and the
    language xx the constructor raises, and the message is not the
    announcement followed by the supported set: the announcement stands
    between the names, the message does not start with it, and the set as
    a list, [de, en, fr], does not occur in it.  With one locale the
    message is that name alone. *)
Example unsupported_language_message_is_garbled :
  let run := construct Demo.ok_env (Demo.args (Some "<bundle>") "xx") [] in
  let message := "deLanguage not supported. Supported languages are , "
                 ++ "enLanguage not supported. Supported languages are , " ++ "fr" in
  fst run = Raise (Exception message)
  /\ String.prefix "Language not supported" message = false
  /\ Text.contains "de, en, fr" message = false
  /\ unsupported_language ["en"] = "en".
Proof. repeat split. Qed.

(* ------------------------------------------------------------------ *)
(** ** [__init__]: the signing secret *)




(** The cookie is there and the value is not. *)
Example cookie_without_sapisid :
  fst (construct Demo.ok_env (Demo.args (Some "<bundle without secret>") "en") [])
  = Raise (Exception missing_sapisid).
Proof. reflexivity. Qed.

(** Line 142 catches [KeyError] and nothing else: any other exception of
    the helper ends the construction as it is. *)
Lemma other_helper_errors_pass_through
  (E : Env) (a : init_args) (w : World) (s1 : State)
  (h : CaseInsensitiveDict) (e : exn) :
  truthy (arg_auth a) = true ->
  until_user E a {| self := blank; world := w |} = (Ok tt, s1) ->
  headers (self s1) = Some h ->
  sapisid_from_cookie E (CID.get "cookie" JNull h) = Raise e ->
  is_KeyError e = false ->
  construct E a w = (Raise e, s1).
Proof.
  intros Hauth Hpre Hh Herr Hnot.
  unfold construct, __init__. unfold bind at 1. rewrite Hpre.
  unfold verify_auth. rewrite Hauth.
  unfold catch, bind, attr, lift. rewrite Hh, Herr, Hnot. reflexivity.
Qed.

(* ------------------------------------------------------------------ *)
(** ** The Authorization token *)

Module TokenFacts.

Lemma uint_has_no_underscore (d : Decimal.uint) :
  Text.mem "_" (NilEmpty.string_of_uint d) = false.
Proof. induction d; simpl; auto. Qed.

Lemma str_has_no_underscore (z : Z) : Text.mem "_" (Text.str z) = false.
Proof.
  unfold Text.str. destruct (Z.to_int z) as [d|d]; simpl;
    apply uint_has_no_underscore.
Qed.

Lemma str_inj (a b : Z) : Text.str a = Text.str b -> a = b.
Proof.
  unfold Text.str. intros H. apply DecimalZ.to_int_inj.
  assert (Hs : Some (Z.to_int a) = Some (Z.to_int b)).
  { rewrite <- !NilEmpty.isi. now rewrite H. }
  now inversion Hs.
Qed.

(** Two texts free of the separator that are followed by it are equal as
    soon as the whole strings are. *)
Lemma cut_at_separator (c : ascii) (a b x y : string) :
  Text.mem c a = false -> Text.mem c b = false ->
  a ++ String c x = b ++ String c y -> a = b.
Proof.
  revert b. induction a as [|p a IH]; intros [|q b]; simpl; auto.
  - intros _ Hb H. inversion H; subst q.
    rewrite Ascii.eqb_refl in Hb. discriminate.
  - intros Ha _ H. inversion H; subst p.
    rewrite Ascii.eqb_refl in Ha. discriminate.
  - intros Ha Hb H. inversion H; subst q.
    apply orb_false_iff in Ha, Hb. f_equal. apply IH; tauto.
Qed.

End TokenFacts.

(** C7.  The token is a function of the time stamp and of the secret and
    origin: equal inputs give the same token, two different time stamps
    give two different tokens for the same secret and origin, and the token
    reads [SAPISIDHASH <timestamp>_<hash>]; one signing step yields the
    token of the time the clock shows then. *)
Theorem authorization_is_deterministic_and_fresh
  (E : Env) (secret_and_origin : string) (t1 t2 : Z) :
  (t1 = t2 ->
   authorization E t1 secret_and_origin = authorization E t2 secret_and_origin)
  /\ (t1 <> t2 ->
      authorization E t1 secret_and_origin <> authorization E t2 secret_and_origin)
  /\ authorization E t1 secret_and_origin
     = "SAPISIDHASH " ++ Text.str t1 ++ "_" ++ hash_scheme E t1 secret_and_origin
  /\ (forall s,
         fst (get_authorization E secret_and_origin s)
         = Ok (authorization E (time_now E (world s)) secret_and_origin)).
Proof.
  split; [now intros ->|]. split; [|split; [reflexivity|reflexivity]].
  intros Hne Heq. apply Hne. apply TokenFacts.str_inj.
  unfold authorization in Heq. simpl in Heq.
  injection Heq as Heq.
  apply (TokenFacts.cut_at_separator "_" _ _ _ _
           (TokenFacts.str_has_no_underscore t1)
           (TokenFacts.str_has_no_underscore t2) Heq).
Qed.

Lemma authorization_is_deterministic_and_fresh_witness :
  (1700000000 <> 1700000001)%Z
  /\ authorization Demo.ok_env 1700000000 "s3cr3t https://music.youtube.com"
     <> authorization Demo.ok_env 1700000001 "s3cr3t https://music.youtube.com".
Proof.
  split; [lia|].
  apply (proj1 (proj2 (authorization_is_deterministic_and_fresh Demo.ok_env
                         "s3cr3t https://music.youtube.com"
                         1700000000 1700000001))).
  lia.
Defined.

(* ------------------------------------------------------------------ *)
(** ** What the constructor stores in [self.auth] *)

Module Frame.

Lemma keeps_ret {A} (a : A) : keeps_auth (ret a).
Proof. intros s r s' H. now inversion H. Qed.

Lemma keeps_raise {A} (e : exn) : keeps_auth (@raise State A e).
Proof. intros s r s' H. now inversion H. Qed.

Lemma keeps_lift {A} (x : Result A) : keeps_auth (lift x).
Proof. intros s r s' H. now inversion H. Qed.

Lemma keeps_attr {A} name (f : YTMusic -> option A) : keeps_auth (attr name f).
Proof.
  intros s r s' H. unfold attr in H.
  destruct (f (self s)); now inversion H.
Qed.

Lemma keeps_emit (e : event) : keeps_auth (emit e).
Proof. intros s r s' H. now inversion H. Qed.

Lemma keeps_on_self (f : YTMusic -> YTMusic) :
  (forall y, auth (f y) = auth y) -> keeps_auth (on_self f).
Proof. intros Hf s r s' H. inversion H. simpl. apply Hf. Qed.

Lemma keeps_bind {A B} (m : M State A) (k : A -> M State B) :
  keeps_auth m -> (forall a, keeps_auth (k a)) -> keeps_auth (bind m k).
Proof.
  intros Hm Hk s r s' H. unfold bind in H.
  destruct (m s) as [[a|e] s1] eqn:Hms.
  - rewrite (Hk a _ _ _ H). apply (Hm _ _ _ Hms).
  - inversion H; subst. apply (Hm _ _ _ Hms).
Qed.

Lemma keeps_catch {A} sel (body : M State A) handler :
  keeps_auth body -> (forall e, keeps_auth (handler e)) ->
  keeps_auth (catch sel body handler).
Proof.
  intros Hb Hh s r s' H. unfold catch in H.
  destruct (body s) as [[a|e] s1] eqn:Hbs.
  - inversion H; subst. apply (Hb _ _ _ Hbs).
  - destruct (sel e).
    + rewrite (Hh e _ _ _ H). apply (Hb _ _ _ Hbs).
    + inversion H; subst. apply (Hb _ _ _ Hbs).
Qed.

Create HintDb frame.
#[export] Hint Resolve keeps_ret keeps_raise keeps_lift keeps_attr keeps_emit
  keeps_bind keeps_catch : frame.

Ltac frame :=
  repeat first
    [ progress intros
    | apply keeps_bind
    | apply keeps_catch
    | apply keeps_on_self; reflexivity
    | solve [auto with frame]
    | match goal with
      | |- keeps_auth (match ?x with _ => _ end) => destruct x
      | |- keeps_auth (if ?x then _ else _) => destruct x
      end ].

Lemma keeps_prepare_headers E a : keeps_auth (prepare_headers E a).
Proof. unfold prepare_headers, load_credentials. frame. Qed.

Lemma keeps_resolve_visitor_id E : keeps_auth (resolve_visitor_id E).
Proof. unfold resolve_visitor_id, headers_update. frame. Qed.

Lemma keeps_build_context E lng : keeps_auth (build_context E lng).
Proof. unfold build_context. frame. Qed.

Lemma keeps_validate_language E lng : keeps_auth (validate_language E lng).
Proof. unfold validate_language. frame. Qed.

Lemma keeps_prepare_locale E lng : keeps_auth (prepare_locale E lng).
Proof. unfold prepare_locale. frame. Qed.

Lemma keeps_on_behalf_of user : keeps_auth (on_behalf_of user).
Proof. unfold on_behalf_of. frame. Qed.

Lemma keeps_verify_auth E a : keeps_auth (verify_auth E a).
Proof. unfold verify_auth. frame. Qed.

Lemma sets_then_keeps {A B} v (m : M State A) (k : A -> M State B) :
  sets_auth v m -> (forall a, keeps_auth (k a)) -> sets_auth v (bind m k).
Proof.
  intros Hm Hk s r s' H. unfold bind in H.
  destruct (m s) as [[a|e] s1] eqn:Hms.
  - rewrite (Hk a _ _ _ H). apply (Hm _ _ _ Hms).
  - inversion H; subst. apply (Hm _ _ _ Hms).
Qed.

Lemma sets_store_arguments a : sets_auth (arg_auth a) (store_arguments a).
Proof.
  unfold store_arguments. apply sets_then_keeps; [|frame].
  intros s r s' H. now inversion H.
Qed.

Lemma sets_init E a : sets_auth (arg_auth a) (__init__ E a).
Proof.
  unfold __init__, until_user, until_context.
  apply sets_then_keeps; [|intros; apply keeps_verify_auth].
  apply sets_then_keeps.
  - apply sets_then_keeps; [apply sets_store_arguments|].
    intros _. apply keeps_bind; [apply keeps_prepare_headers|].
    intros _. apply keeps_bind; [apply keeps_resolve_visitor_id|].
    intros _. apply keeps_build_context.
  - intros _. apply keeps_bind; [apply keeps_validate_language|].
    intros _. apply keeps_bind; [apply keeps_prepare_locale|].
    intros _. apply keeps_on_behalf_of.
Qed.

(** Line 78 stores the argument and nothing after it touches [self.auth]:
    a constructed client is authenticated exactly when [auth] was given. *)
Lemma construct_stores_auth (E : Env) (a : init_args) (w : World) (y : YTMusic) :
  fst (construct E a w) = Ok y -> auth y = arg_auth a.
Proof.
  unfold construct. intros H.
  destruct (__init__ E a {| self := blank; world := w |}) as [[[]|e] s] eqn:Hinit;
    simpl in H; [|discriminate].
  inversion H; subst y. apply (@sets_init E a _ _ _ Hinit).
Qed.

End Frame.

(* ------------------------------------------------------------------ *)
(** ** [_send_request]: clients constructed without [auth] *)

(** C9.  On a client that was constructed without an [auth] argument, every
    call skips the signing step: the object is left as it was, the clock is
    not read, so no Authorization value is computed, and the headers of the
    POST are the header map of the client as it stands, so the call
    attaches no Authorization header to it. *)
Theorem unauthenticated_call_skips_signing
  (E : Env) (a : init_args) (w0 : World) (y : YTMusic)
  (endpoint : string) (body : dict) (additionalParams : string) (w : World) :
  fst (construct E a w0) = Ok y ->
  arg_auth a = None ->
  let s := {| self := y; world := w |} in
  let o := _send_request E endpoint body additionalParams s in
  self (state_after o) = y
  /\ forall evs,
       world (state_after o) = (w ++ evs)%list ->
       (forall t, ~ In (EvTime t) evs)
       /\ (forall rq answer,
             In (EvPost rq answer) evs ->
             headers y = Some (sent_headers rq)
             /\ (forall h, headers y = Some h ->
                   CID.contains "Authorization" h = false ->
                   CID.contains "Authorization" (sent_headers rq) = false)).
Proof.
  intros Hnew Hnone s o.
  apply (@falsy_auth_skips_signing E endpoint body additionalParams s).
  simpl. rewrite (Frame.construct_stores_auth _ _ _ Hnew), Hnone. reflexivity.
Qed.

Lemma unauthenticated_call_skips_signing_witness :
  (fst (construct Demo.ok_env (Demo.args None "en") []) = Ok Demo.anonymous
   /\ arg_auth (Demo.args None "en") = None)
  /\ self (state_after
             (_send_request Demo.ok_env "search" Demo.search_body ""
                Demo.anonymous_start))
     = Demo.anonymous.
Proof.
  split; [split; reflexivity|].
  apply (proj1 (@unauthenticated_call_skips_signing Demo.ok_env
                  (Demo.args None "en") [] Demo.anonymous
                  "search" Demo.search_body "" [] eq_refl eq_refl)).
Defined.

(* ------------------------------------------------------------------ *)
(** ** More on [_send_request]: what a call returns *)

(** What a call that reached the POST returns and leaves behind. *)
Lemma posted_answer
  (E : Env) (endpoint : string) (body : dict) (additionalParams : string)
  (s : State) (evs : list event) (rq : request) (answer : Result response) :
  let o := _send_request E endpoint body additionalParams s in
  world (state_after o) = (world s ++ evs)%list ->
  In (EvPost rq answer) evs ->
  returned o = and_then answer read_response
  /\ headers (self (state_after o)) = Some (sent_headers rq).
Proof.
  intros o. subst o.
  destruct (send_request_run E endpoint body additionalParams s)
    as [e Hc|ctx e Hc|ctx s1 h Hc Hsign Hh rq0]; simpl; intros Hw Hin.
  - apply no_new_events in Hw. subst evs. destruct Hin.
  - apply no_new_events in Hw. subst evs. destruct Hin.
  - destruct (@posted_events E s s1 rq0 evs rq answer Hsign Hw Hin) as [-> ->].
    split; [reflexivity|]. subst rq0. simpl. exact Hh.
Qed.

Lemma read_response_ok_iff (r : response) (j : json) :
  read_response r = Ok j <-> json_body r = Ok j /\ (status r < 400)%Z.
Proof.
  unfold read_response.
  destruct (json_body r) as [j0|e]; simpl.
  2: { split; [discriminate|intros [H _]; discriminate]. }
  destruct (400 <=? status r)%Z eqn:Hst.
  - apply Z.leb_le in Hst. split; [|intros [_ H]; lia].
    destruct (error_prefix r) as [p|]; simpl; [|discriminate].
    destruct (Item.get j0 "error" (JObj [])) as [err|]; simpl; [|discriminate].
    destruct (Item.get err "message" JNull) as [m|]; simpl; [|discriminate].
    destruct (Item.concat_str p m); simpl; discriminate.
  - apply Z.leb_gt in Hst. split.
    + intros H. inversion H. auto.
    + intros [H _]. inversion H. reflexivity.
Qed.

(** X1.  A call whose POST was answered returns a value exactly when the
    status is below 400 and the body decodes, and the value is the decoded
    body; from 400 on it never returns. *)
Theorem call_returns_iff_status_below_400
  (E : Env) (endpoint : string) (body : dict) (additionalParams : string)
  (s : State) (evs : list event) (rq : request) (r : response) (j : json) :
  let o := _send_request E endpoint body additionalParams s in
  world (state_after o) = (world s ++ evs)%list ->
  In (EvPost rq (Ok r)) evs ->
  (returned o = Ok j <-> json_body r = Ok j /\ (status r < 400)%Z).
Proof.
  intros o Hw Hin.
  destruct (@posted_answer E endpoint body additionalParams s _ _ _ Hw Hin) as [Hret _].
  fold o in Hret. rewrite Hret. simpl. apply read_response_ok_iff.
Qed.

Lemma call_returns_iff_status_below_400_witness :
  let E := Demo.env (Demo.answer 204 "No Content" (JArr [])) in
  let o := _send_request E "search" Demo.search_body "" Demo.anonymous_start in
  (exists evs rq r,
      world (state_after o) = (world Demo.anonymous_start ++ evs)%list
      /\ In (EvPost rq (Ok r)) evs
      /\ json_body r = Ok (JArr []) /\ (status r < 400)%Z)
  /\ returned o = Ok (JArr []).
Proof.
  intros E o. split.
  - eexists [EvPost _ (Ok _)], _, _.
    split; [reflexivity|]. split; [left; reflexivity|]. split; [reflexivity|].
    simpl. lia.
  - apply (proj2 (@call_returns_iff_status_below_400 E "search" Demo.search_body ""
                    Demo.anonymous_start [EvPost _ (Ok _)] _ _ (JArr [])
                    eq_refl (or_introl eq_refl))).
    split; [reflexivity|simpl; lia].
Defined.

(** X2.  The body is decoded ahead of the status check of line 164: when
    decoding the answer raises, the call raises that exception whatever
    the status is, so an answer with status 400 or above and a body that is
    no JSON does not end in the [Exception] of line 173. *)
Theorem undecodable_answer_raises_the_decoding_error
  (E : Env) (endpoint : string) (body : dict) (additionalParams : string)
  (s : State) (evs : list event) (rq : request) (r : response) (e : exn) :
  let o := _send_request E endpoint body additionalParams s in
  world (state_after o) = (world s ++ evs)%list ->
  In (EvPost rq (Ok r)) evs ->
  json_body r = Raise e ->
  returned o = Raise e.
Proof.
  intros o Hw Hin Hj.
  destruct (@posted_answer E endpoint body additionalParams s _ _ _ Hw Hin) as [Hret _].
  fold o in Hret. rewrite Hret. simpl. unfold read_response. now rewrite Hj.
Qed.

Lemma undecodable_answer_raises_the_decoding_error_witness :
  let e := LibraryError "ContentTypeError" "unexpected mimetype: text/html" in
  let E := Demo.env (Ok {| status := 502; status_code := Some 502%Z;
                           reason := "Bad Gateway"; text := "<html>";
                           json_body := Raise e |}) in
  let o := _send_request E "search" Demo.search_body "" Demo.start in
  (exists evs rq r,
      world (state_after o) = (world Demo.start ++ evs)%list
      /\ In (EvPost rq (Ok r)) evs /\ json_body r = Raise e)
  /\ returned o = Raise e.
Proof.
  intros e E o. split.
  - eexists [_; EvPost _ (Ok _)], _, _.
    split; [reflexivity|]. split; [right; left; reflexivity|]. reflexivity.
  - apply (@undecodable_answer_raises_the_decoding_error E "search" Demo.search_body ""
             Demo.start [_; EvPost _ (Ok _)] _ _ e eq_refl
             (or_intror (or_introl eq_refl)) eq_refl).
Defined.

(** X3.  When the POST itself raises (a network error, say) the call raises
    the same exception; and whatever the POST gave, the header map of the
    client after the call is the one that was sent, so the Authorization
    entry written for a call that failed stays in the shared map. *)
Theorem failed_post_is_raised_and_headers_stay_as_sent
  (E : Env) (endpoint : string) (body : dict) (additionalParams : string)
  (s : State) (evs : list event) (rq : request) (answer : Result response) :
  let o := _send_request E endpoint body additionalParams s in
  world (state_after o) = (world s ++ evs)%list ->
  In (EvPost rq answer) evs ->
  headers (self (state_after o)) = Some (sent_headers rq)
  /\ (forall e, answer = Raise e -> returned o = Raise e).
Proof.
  intros o Hw Hin.
  destruct (@posted_answer E endpoint body additionalParams s _ _ _ Hw Hin) as [Hret Hh].
  fold o in Hret, Hh. split; [exact Hh|].
  intros e ->. exact Hret.
Qed.

Lemma failed_post_is_raised_and_headers_stay_as_sent_witness :
  let e := LibraryError "ClientConnectorError" "cannot connect to host" in
  let E := Demo.env (Raise e) in
  let o := _send_request E "search" Demo.search_body "" Demo.start in
  (exists evs rq,
      world (state_after o) = (world Demo.start ++ evs)%list
      /\ In (EvPost rq (Raise e)) evs)
  /\ returned o = Raise e
  /\ (forall h, headers (self (state_after o)) = Some h ->
        CID.contains "Authorization" h = true).
Proof.
  intros e E o. split.
  - eexists [_; EvPost _ (Raise _)], _.
    split; [reflexivity|]. right; left; reflexivity.
  - destruct (@failed_post_is_raised_and_headers_stay_as_sent E "search"
                Demo.search_body "" Demo.start [_; EvPost _ (Raise e)] _ _
                eq_refl (or_intror (or_introl eq_refl))) as [Hh Hr].
    split; [apply Hr; reflexivity|].
    intros h Hsome. unfold o in Hsome. rewrite Hh in Hsome.
    inversion Hsome. reflexivity.
Defined.

(** X4.  With status 400 or above, a response object that has the
    attribute [status_code], and a decoded body with a string at
    [error.message], the call raises [Exception] whose text is
    [Server returned HTTP <status_code>: <reason>.] and, on the next line,
    the server's message. *)
Theorem api_error_text
  (E : Env) (endpoint : string) (body : dict) (additionalParams : string)
  (s : State) (evs : list event) (rq : request) (r : response)
  (j : json) (code : Z) (m : string) :
  let o := _send_request E endpoint body additionalParams s in
  world (state_after o) = (world s ++ evs)%list ->
  In (EvPost rq (Ok r)) evs ->
  json_body r = Ok j ->
  (400 <= status r)%Z ->
  status_code r = Some code ->
  error_message_of j = Some m ->
  returned o
  = Raise (Exception (("Server returned HTTP " ++ Text.str code ++ ": "
                       ++ reason r ++ "." ++ Text.nl) ++ m)).
Proof.
  intros o Hw Hin Hj Hst Hcode Hm.
  destruct (@posted_answer E endpoint body additionalParams s _ _ _ Hw Hin) as [Hret _].
  fold o in Hret. rewrite Hret. simpl.
  now apply read_response_api_error with (j := j).
Qed.

Lemma api_error_text_witness :
  let j := JObj [("error", JObj [("code", JInt 403);
                                 ("message", JStr "The caller does not have permission")])] in
  let E := Demo.env (Demo.answer 403 "Forbidden" j) in
  let o := _send_request E "browse" [] "" Demo.start in
  (exists evs rq r,
      world (state_after o) = (world Demo.start ++ evs)%list
      /\ In (EvPost rq (Ok r)) evs /\ json_body r = Ok j /\ (400 <= status r)%Z
      /\ status_code r = Some 403%Z
      /\ error_message_of j = Some "The caller does not have permission")
  /\ returned o
     = Raise (Exception ("Server returned HTTP 403: Forbidden." ++ Text.nl
                         ++ "The caller does not have permission")).
Proof.
  intros j E o. split.
  - eexists [_; EvPost _ (Ok _)], _, _.
    split; [reflexivity|]. split; [right; left; reflexivity|].
    split; [reflexivity|]. split; [simpl; lia|]. split; reflexivity.
  - unfold o.
    rewrite (@api_error_text E "browse" [] "" Demo.start [_; EvPost _ (Ok _)] _ _
               j 403 "The caller does not have permission"
               eq_refl (or_intror (or_introl eq_refl)) eq_refl).
    + reflexivity.
    + simpl. lia.
    + reflexivity.
    + reflexivity.
Defined.

(* ------------------------------------------------------------------ *)
(** ** More on [_send_request]: what a call does to the world and the object *)

(** X5.  One call adds to the history nothing at all, or one POST, or one
    clock reading followed by one POST; the clock is read exactly for the
    POST of an authenticated client, and a call never issues a GET, prints
    or posts twice. *)
Theorem call_event_shape
  (E : Env) (endpoint : string) (body : dict) (additionalParams : string)
  (s : State) :
  let o := _send_request E endpoint body additionalParams s in
  let t := time_now E (world s) in
  world (state_after o) = world s
  \/ (truthy (auth (self s)) = false
      /\ exists rq,
           world (state_after o)
           = (world s ++ [EvPost rq (session_post E (world s) rq)])%list)
  \/ (truthy (auth (self s)) = true
      /\ exists rq,
           world (state_after o)
           = (world s ++ [EvTime t;
                          EvPost rq (session_post E (world s ++ [EvTime t]) rq)])%list).
Proof.
  intros o t. subst o.
  destruct (send_request_run E endpoint body additionalParams s)
    as [e Hc|ctx e Hc|ctx s1 h Hc Hsign Hh rq0]; simpl; auto.
  right.
  destruct (@sign_ok E s s1 Hsign)
    as [[Hauth ->]|(Hauth & h0 & secret & o & _ & _ & _ & ->)].
  - left. split; [assumption|]. eexists. reflexivity.
  - right. split; [assumption|]. exists rq0. simpl.
    now rewrite <- app_assoc.
Qed.

(** X6.  A call changes nothing of the client but its header map, and that
    only by writing the entry Authorization. *)
Theorem call_changes_only_the_header_map
  (E : Env) (endpoint : string) (body : dict) (additionalParams : string)
  (s : State) :
  let y := self s in
  let y' := self (state_after (_send_request E endpoint body additionalParams s)) in
  auth y' = auth y /\ _session y' = _session y /\ proxies y' = proxies y
  /\ cookies y' = cookies y /\ context y' = context y
  /\ language y' = language y /\ lang y' = lang y /\ parser y' = parser y
  /\ sapisid y' = sapisid y
  /\ (headers y' = headers y
      \/ exists h token,
           headers y = Some h
           /\ headers y' = Some (CID.setitem "Authorization" (JStr token) h)).
Proof.
  intros y y'. subst y y'.
  destruct (send_request_run E endpoint body additionalParams s)
    as [e Hc|ctx e Hc|ctx s1 h Hc Hsign Hh rq0]; simpl;
    try (repeat split; auto; fail).
  destruct (@sign_ok E s s1 Hsign)
    as [[Hauth ->]|(Hauth & h0 & secret & o & Hh0 & _ & _ & ->)]; simpl.
  - repeat split; auto.
  - repeat split; auto. right. eauto.
Qed.

Lemma get_absent key default h :
  CID.contains key h = false -> CID.get key default h = default.
Proof.
  unfold CID.contains, CID.get.
  destruct (CID.find (Text.lower key) h) as [[k v]|]; [discriminate|reflexivity].
Qed.

(** X7.  On an authenticated client whose header map has neither [origin]
    nor [x-origin], a call ends in the TypeError of line 154 (a [str] plus
    [None]): nothing is posted, the clock is not read and the header map
    is untouched, but the caller's body has already been updated with the
    context. *)
Theorem call_without_origin_stops_before_the_post
  (E : Env) (endpoint : string) (body : dict) (additionalParams : string)
  (s : State) (h : CaseInsensitiveDict) (secret : string) (ctx : dict) :
  truthy (auth (self s)) = true ->
  headers (self s) = Some h ->
  sapisid (self s) = Some secret ->
  context (self s) = Some ctx ->
  CID.contains "origin" h = false ->
  CID.contains "x-origin" h = false ->
  exists msg,
    _send_request E endpoint body additionalParams s
    = {| returned := Raise (TypeError msg);
         body_after := Dict.update body ctx;
         state_after := s |}.
Proof.
  intros Hauth Hh Hs Hctx Ho Hx.
  unfold _send_request. rewrite merge_context_run, Hctx.
  unfold bind. rewrite sign_run, Hauth, Hh, Hs.
  unfold origin_of. rewrite (get_absent "origin" _ _ Ho), (get_absent "x-origin" _ _ Hx).
  simpl. eauto.
Qed.

Lemma call_without_origin_stops_before_the_post_witness :
  let h := CID.update [] Demo.bundle_without_cookie in
  let h' := CID.update [] [("X-Goog-Visitor-Id", JStr "Cgt2aXNpdG9y")] in
  let s := {| self := with_headers h' Demo.client; world := [] |} in
  (truthy (auth (self s)) = true /\ headers (self s) = Some h'
   /\ sapisid (self s) = Some "s3cr3t" /\ context (self s) = Some Demo.client_context
   /\ CID.contains "origin" h' = false /\ CID.contains "x-origin" h' = false)
  /\ exists msg,
       _send_request Demo.ok_env "search" Demo.search_body "" s
       = {| returned := Raise (TypeError msg);
            body_after := Dict.update Demo.search_body Demo.client_context;
            state_after := s |}.
Proof.
  intros h h' s. split; [repeat split|].
  apply (@call_without_origin_stops_before_the_post Demo.ok_env "search"
           Demo.search_body "" s h' "s3cr3t" Demo.client_context);
    reflexivity.
Defined.

(* ------------------------------------------------------------------ *)
(** ** [_send_get_request] *)

Lemma send_get_request_run (E : Env) (url_ : string) (params : json) (s : State) :
  _send_get_request E url_ params s
  = match headers (self s) with
    | None => (Raise (no_attribute "headers"), s)
    | Some h =>
        let rq := get_request url_ params (self s) h in
        let answer := session_get E (world s) rq in
        (and_then answer (fun r => Ok (TextMethod r)),
         {| self := self s; world := (world s ++ [EvGet rq answer])%list |})
    end.
Proof.
  unfold _send_get_request, bind, gets, attr, lift, emit, modify, ret,
    get_request, no_attribute.
  simpl. destruct (headers (self s)) as [h|]; auto.
  simpl. now destruct (session_get E (world s) _).
Qed.

(** X8.  A GET does no error classification and no signing, and hands
    back no text: whatever the status of the answer, what is returned is
    the attribute [text] of the response as line 185 reads it, the method
    bound to the response and not the string it would give; the object is
    left as it was, and the history gains the one GET, sent with the header
    map, the proxies and the cookies of the client as they stand. *)
Theorem get_returns_the_text_method_whatever_the_status
  (E : Env) (url_ : string) (params : json) (s : State)
  (h : CaseInsensitiveDict) (r : response) :
  headers (self s) = Some h ->
  let rq := {| url := url_; payload := params; sent_headers := h;
               sent_proxies := proxies (self s); sent_cookies := cookies (self s) |} in
  session_get E (world s) rq = Ok r ->
  _send_get_request E url_ params s
  = (Ok (TextMethod r),
     {| self := self s; world := (world s ++ [EvGet rq (Ok r)])%list |}).
Proof.
  intros Hh rq Hans. rewrite send_get_request_run, Hh. simpl.
  fold rq. unfold get_request. fold rq. now rewrite Hans.
Qed.

Lemma get_returns_the_text_method_whatever_the_status_witness :
  let r := {| status := 404; status_code := Some 404%Z; reason := "Not Found";
              text := "<html>not here</html>";
              json_body := Raise (LibraryError "ContentTypeError" "text/html") |} in
  let E :=
    {| isfile := isfile Demo.ok_env; open_and_load := open_and_load Demo.ok_env;
       orjson_loads := orjson_loads Demo.ok_env;
       listdir_locales := listdir_locales Demo.ok_env;
       setlocale := setlocale Demo.ok_env;
       gettext_translation := gettext_translation Demo.ok_env;
       browsing_Parser := browsing_Parser Demo.ok_env;
       initialize_headers := initialize_headers Demo.ok_env;
       initialize_context := initialize_context Demo.ok_env;
       get_visitor_id := get_visitor_id Demo.ok_env;
       sapisid_from_cookie := sapisid_from_cookie Demo.ok_env;
       hash_scheme := hash_scheme Demo.ok_env;
       YTM_BASE_API := YTM_BASE_API Demo.ok_env;
       YTM_PARAMS := YTM_PARAMS Demo.ok_env;
       time_now := time_now Demo.ok_env;
       session_post := session_post Demo.ok_env;
       session_get := fun _ _ => Ok r |} in
  let rq := {| url := "https://music.youtube.com"; payload := JNull;
               sent_headers := Demo.default_headers;
               sent_proxies := proxies (self Demo.anonymous_start);
               sent_cookies := cookies (self Demo.anonymous_start) |} in
  (headers (self Demo.anonymous_start) = Some Demo.default_headers
   /\ session_get E (world Demo.anonymous_start) rq = Ok r)
  /\ fst (_send_get_request E "https://music.youtube.com" JNull Demo.anonymous_start)
     = Ok (TextMethod r).
Proof.
  intros r E rq. split; [split; reflexivity|].
  rewrite (@get_returns_the_text_method_whatever_the_status E
             "https://music.youtube.com" JNull Demo.anonymous_start
             Demo.default_headers r eq_refl eq_refl).
  reflexivity.
Defined.

(** X9.  The header map is shared between the two request methods: a GET
    that follows an authenticated POST on the same client is sent with the
    Authorization value that POST wrote, although the GET itself computes
    none. *)
Theorem get_after_post_carries_the_token_of_the_post
  (E : Env) (endpoint : string) (body : dict) (additionalParams : string)
  (url_ : string) (params : json)
  (s : State) (h : CaseInsensitiveDict) (secret o : string) (ctx : dict) :
  truthy (auth (self s)) = true ->
  headers (self s) = Some h ->
  sapisid (self s) = Some secret ->
  origin_of h = JStr o ->
  context (self s) = Some ctx ->
  let token := authorization E (time_now E (world s)) ((secret ++ " ") ++ o) in
  let s2 := state_after (_send_request E endpoint body additionalParams s) in
  exists rq answer,
    snd (_send_get_request E url_ params s2)
    = {| self := self s2; world := (world s2 ++ [EvGet rq answer])%list |}
    /\ CID.get "Authorization" JNull (sent_headers rq) = JStr token.
Proof.
  intros Hauth Hh Hs Ho Hctx token s2.
  assert (Hout := authenticated_call_run E endpoint body additionalParams s
                    Hauth Hh Hs Ho Hctx).
  simpl in Hout. fold token in Hout.
  assert (Hh2 : headers (self s2)
                = Some (CID.setitem "Authorization" (JStr token) h)).
  { subst s2. now rewrite Hout. }
  rewrite send_get_request_run, Hh2. simpl.
  do 2 eexists. split; [reflexivity|].
  simpl. apply CIDFacts.get_setitem_same.
Qed.

Lemma get_after_post_carries_the_token_of_the_post_witness :
  (truthy (auth (self Demo.start)) = true
   /\ headers (self Demo.start) = Some Demo.client_headers
   /\ sapisid (self Demo.start) = Some "s3cr3t"
   /\ origin_of Demo.client_headers = JStr "https://music.youtube.com"
   /\ context (self Demo.start) = Some Demo.client_context)
  /\ exists rq answer,
       snd (_send_get_request Demo.ok_env "https://music.youtube.com" JNull
              (state_after (_send_request Demo.ok_env "search" Demo.search_body ""
                              Demo.start)))
       = {| self := self (state_after (_send_request Demo.ok_env "search"
                                         Demo.search_body "" Demo.start));
            world := (world (state_after (_send_request Demo.ok_env "search"
                                            Demo.search_body "" Demo.start))
                      ++ [EvGet rq answer])%list |}
       /\ CID.get "Authorization" JNull (sent_headers rq)
          = JStr "SAPISIDHASH 1700000000_51".
Proof.
  split; [repeat split|].
  apply (@get_after_post_carries_the_token_of_the_post Demo.ok_env "search"
           Demo.search_body "" "https://music.youtube.com" JNull Demo.start
           Demo.client_headers "s3cr3t" "https://music.youtube.com"
           Demo.client_context eq_refl eq_refl eq_refl eq_refl eq_refl).
Defined.

(* ------------------------------------------------------------------ *)
(** ** Nested item assignment, as lines 115 and 135 use it *)

Lemma setitem3_ok d k1 k2 k3 v d' :
  Item.setitem3 d k1 k2 k3 v = Ok d' ->
  exists e1 e2,
    Dict.get k1 d = Some (JObj e1) /\ Dict.get k2 e1 = Some (JObj e2)
    /\ d' = Dict.set k1 (JObj (Dict.set k2 (JObj (Dict.set k3 v e2)) e1)) d.
Proof.
  unfold Item.setitem3, Item.getitem.
  destruct (Dict.get k1 d) as [o1|] eqn:H1; [|discriminate].
  destruct o1 as [| | | | | |e1]; try discriminate.
  destruct (Dict.get k2 e1) as [o2|] eqn:H2; [|discriminate].
  destruct o2 as [| | | | | |e2]; try discriminate.
  simpl. intros H. inversion H. eauto.
Qed.

Lemma setitem3_paths (d d' : dict) (k1 k2 k3 : string) (v : json) :
  Item.setitem3 d k1 k2 k3 v = Ok d' ->
  getitem3 d' k1 k2 k3 = Ok v
  /\ forall k1' k2' k3',
       (k1', k2', k3') <> (k1, k2, k3) ->
       getitem3 d' k1' k2' k3' = getitem3 d k1' k2' k3'.
Proof.
  intros Hset. destruct (setitem3_ok _ _ _ _ _ Hset) as (e1 & e2 & H1 & H2 & ->).
  split.
  - unfold getitem3, Item.getitem. rewrite DictFacts.get_set_same. simpl.
    rewrite DictFacts.get_set_same. simpl.
    now rewrite DictFacts.get_set_same.
  - intros k1' k2' k3' Hne. unfold getitem3, Item.getitem.
    destruct (String.eqb k1 k1') eqn:E1.
    2: { apply String.eqb_neq in E1. now rewrite DictFacts.get_set_other. }
    apply String.eqb_eq in E1. subst k1'.
    rewrite DictFacts.get_set_same, H1. simpl.
    destruct (String.eqb k2 k2') eqn:E2.
    2: { apply String.eqb_neq in E2. now rewrite DictFacts.get_set_other. }
    apply String.eqb_eq in E2. subst k2'.
    rewrite DictFacts.get_set_same, H2. simpl.
    destruct (String.eqb k3 k3') eqn:E3.
    + apply String.eqb_eq in E3. subst k3'. congruence.
    + apply String.eqb_neq in E3. now rewrite DictFacts.get_set_other.
Qed.

(** X10.  After [d[k1][k2][k3] = v] has succeeded, reading the same path
    gives [v] and reading any other path of three keys gives what it gave
    before. *)
Theorem nested_assignment_round_trip
  (d d' : dict) (k1 k2 k3 : string) (v : json) :
  Item.setitem3 d k1 k2 k3 v = Ok d' ->
  getitem3 d' k1 k2 k3 = Ok v
  /\ forall k1' k2' k3',
       (k1', k2', k3') <> (k1, k2, k3) ->
       getitem3 d' k1' k2' k3' = getitem3 d k1' k2' k3'.
Proof. apply setitem3_paths. Qed.

Lemma nested_assignment_round_trip_witness :
  Item.setitem3 Demo.default_context "context" "client" "hl" (JStr "fr")
  = Ok [ ("context",
          JObj [ ("client", JObj [ ("clientName", JStr "WEB_REMIX");
                                   ("clientVersion", JStr "0.1");
                                   ("hl", JStr "fr") ]);
                 ("user", JObj []) ]) ]
  /\ getitem3 [ ("context",
                 JObj [ ("client", JObj [ ("clientName", JStr "WEB_REMIX");
                                          ("clientVersion", JStr "0.1");
                                          ("hl", JStr "fr") ]);
                        ("user", JObj []) ]) ]
       "context" "client" "hl" = Ok (JStr "fr").
Proof.
  split; [reflexivity|].
  apply (proj1 (@nested_assignment_round_trip Demo.default_context _
                  "context" "client" "hl" (JStr "fr") eq_refl)).
Defined.

(* ------------------------------------------------------------------ *)
(** ** How the steps of [__init__] run *)

Section InitRuns.

Variable E : Env.

Lemma load_credentials_run a s :
  load_credentials E a s
  = match loaded_headers E a with
    | Ok h => (Ok tt, {| self := with_headers h (self s); world := world s |})
    | Raise e => (Raise e, s)
    end.
Proof.
  unfold load_credentials, loaded_headers, bind, lift, on_self, modify, and_then.
  destruct (isfile E a).
  - destruct (open_and_load E a) as [j|e]; reflexivity.
  - destruct (orjson_loads E a) as [j|e]; reflexivity.
Qed.

Lemma prepare_headers_run a s :
  prepare_headers E a s
  = match a with
    | Some txt =>
        if truthy txt then
          match loaded_headers E txt with
          | Ok h => (Ok tt, {| self := with_headers h (self s); world := world s |})
          | Raise e =>
              (Ok tt, {| self := self s;
                         world := (world s ++ [EvPrint (credentials_diagnostic e)])%list |})
          end
        else (Ok tt, {| self := with_headers (initialize_headers E) (self s);
                        world := world s |})
    | None => (Ok tt, {| self := with_headers (initialize_headers E) (self s);
                         world := world s |})
    end.
Proof.
  unfold prepare_headers. destruct a as [txt|]; [|reflexivity].
  destruct (truthy txt); [|reflexivity].
  unfold catch. rewrite load_credentials_run.
  destruct (loaded_headers E txt); reflexivity.
Qed.

Lemma resolve_visitor_id_run s :
  resolve_visitor_id E s
  = match headers (self s) with
    | None => (Raise (no_attribute "headers"), s)
    | Some h =>
        if CID.contains "x-goog-visitor-id" h then (Ok tt, s)
        else (Raise (bootstrap_error E), s)
    end.
Proof.
  unfold resolve_visitor_id, bind, attr, lift, bootstrap_error, no_attribute, ret.
  destruct (headers (self s)) as [h|]; [|reflexivity].
  destruct (CID.contains "x-goog-visitor-id" h); simpl; [reflexivity|].
  destruct (get_visitor_id E); reflexivity.
Qed.

Lemma build_context_run lng s :
  build_context E lng s
  = match Item.setitem3 (initialize_context E) "context" "client" "hl" (JStr lng) with
    | Ok ctx => (Ok tt, {| self := with_context ctx (self s); world := world s |})
    | Raise e =>
        (Raise e, {| self := with_context (initialize_context E) (self s);
                     world := world s |})
    end.
Proof.
  unfold build_context, bind, attr, lift, on_self, modify. simpl.
  destruct (Item.setitem3 _ _ _ _ _); reflexivity.
Qed.

Lemma validate_language_run lng s :
  validate_language E lng s
  = match listdir_locales E with
    | Raise e => (Raise e, s)
    | Ok supported =>
        if existsb (String.eqb lng) supported
        then (Ok tt, {| self := with_language lng (self s); world := world s |})
        else (Raise (Exception (unsupported_language supported)), s)
    end.
Proof.
  unfold validate_language, bind, lift, on_self, modify, raise.
  destruct (listdir_locales E) as [supported|]; [|reflexivity].
  destruct (existsb (String.eqb lng) supported); reflexivity.
Qed.

Lemma prepare_locale_run lng s :
  prepare_locale E lng s
  = if locale_settles E lng then
      match gettext_translation E [lng] with
      | Raise e => (Raise e, s)
      | Ok _ =>
          match browsing_Parser E with
          | Raise e => (Raise e, {| self := with_lang [lng] (self s); world := world s |})
          | Ok _ => (Ok tt, {| self := with_parser [lng] (with_lang [lng] (self s));
                               world := world s |})
          end
      end
    else (Raise (locale_failure E lng), s).
Proof.
  unfold prepare_locale, locale_settles, locale_failure, bind, catch, lift,
    on_self, modify, ret.
  destruct (setlocale E lng) as [[]|e]; simpl.
  - destruct (gettext_translation E [lng]); [|reflexivity].
    destruct (browsing_Parser E); reflexivity.
  - destruct (is_LocaleError e); simpl; [|reflexivity].
    destruct (setlocale E "en_US.UTF-8") as [[]|e']; simpl.
    + destruct (gettext_translation E [lng]); [|reflexivity].
      destruct (browsing_Parser E); reflexivity.
    + destruct (is_LocaleError e'); simpl; [|reflexivity].
      destruct (gettext_translation E [lng]); [|reflexivity].
      destruct (browsing_Parser E); reflexivity.
Qed.

Lemma on_behalf_of_run user s :
  on_behalf_of user s
  = if truthy user then
      match user, context (self s) with
      | Some u, Some ctx =>
          match Item.setitem3 ctx "context" "user" "onBehalfOfUser" (JStr u) with
          | Ok ctx' => (Ok tt, {| self := with_context ctx' (self s); world := world s |})
          | Raise e => (Raise e, s)
          end
      | _, _ => (Raise (no_attribute "context"), s)
      end
    else (Ok tt, s).
Proof.
  unfold on_behalf_of, bind, attr, lift, on_self, modify, ret, no_attribute.
  destruct user as [u|]; [|reflexivity].
  change (@truthy (option string) _ (Some u)) with (truthy u).
  destruct (truthy u); [|reflexivity].
  destruct (context (self s)) as [ctx|]; [|reflexivity].
  destruct (Item.setitem3 _ _ _ _ _); reflexivity.
Qed.

Lemma verify_auth_run a s :
  verify_auth E a s
  = if truthy a then
      match headers (self s) with
      | None => (Raise (no_attribute "headers"), s)
      | Some h =>
          match sapisid_from_cookie E (CID.get "cookie" JNull h) with
          | Ok secret => (Ok tt, {| self := with_sapisid secret (self s);
                                    world := world s |})
          | Raise e =>
              (Raise (if is_KeyError e then Exception missing_sapisid else e), s)
          end
      end
    else (Ok tt, s).
Proof.
  unfold verify_auth, catch, bind, attr, lift, on_self, modify, raise, ret,
    no_attribute.
  destruct (truthy a); [|reflexivity].
  destruct (headers (self s)) as [h|]; simpl; [|reflexivity].
  destruct (sapisid_from_cookie E (CID.get "cookie" JNull h)) as [sec|e];
    [reflexivity|].
  simpl. destruct (is_KeyError e); reflexivity.
Qed.

End InitRuns.

(* ------------------------------------------------------------------ *)
(** ** When [__init__] goes through, and what it leaves *)

Lemma bind_ok {S A B} (m : M S A) (k : A -> M S B) (s s' : S) (b : B) :
  bind m k s = (Ok b, s') ->
  exists a s1, m s = (Ok a, s1) /\ k a s1 = (Ok b, s').
Proof.
  unfold bind. destruct (m s) as [[a|e] s1]; [eauto|discriminate].
Qed.

Lemma store_arguments_run (a : init_args) (s : State) :
  store_arguments a s
  = (Ok tt, {| self := with_cookies [("CONSENT", JStr "YES+1")]
                         (with_proxies (arg_proxies a)
                            (with_session (choose_session (arg_client_session a))
                               (with_auth (arg_auth a) (self s))));
               world := world s |}).
Proof. reflexivity. Qed.

(** A construction that returns went through every step with these
    results. *)
Lemma construct_ok_inv (E : Env) (a : init_args) (w : World) (y : YTMusic) (s : State) :
  construct E a w = (Ok y, s) ->
  s = {| self := y; world := w |}
  /\ exists h ctx1 ctx2 supported secret,
       headers_from E (arg_auth a) h
       /\ CID.contains "x-goog-visitor-id" h = true
       /\ Item.setitem3 (initialize_context E) "context" "client" "hl"
            (JStr (arg_language a)) = Ok ctx1
       /\ listdir_locales E = Ok supported
       /\ existsb (String.eqb (arg_language a)) supported = true
       /\ locale_settles E (arg_language a) = true
       /\ is_ok (gettext_translation E [arg_language a]) = true
       /\ is_ok (browsing_Parser E) = true
       /\ user_in (arg_user a) ctx1 ctx2
       /\ secret_from E (arg_auth a) h secret
       /\ y = built a h ctx2 secret.
Proof.
  unfold construct.
  destruct (__init__ E a {| self := blank; world := w |}) as [[[]|e] s'] eqn:Hinit;
    [|discriminate].
  intros H. inversion H. subst s' y. clear H.
  unfold __init__ in Hinit.
  apply bind_ok in Hinit as ([] & s7 & Huser & Hverify).
  unfold until_user in Huser.
  apply bind_ok in Huser as ([] & s4 & Hctx & Huser).
  apply bind_ok in Huser as ([] & s5 & Hval & Huser).
  apply bind_ok in Huser as ([] & s6 & Hloc & Hobo).
  unfold until_context in Hctx.
  apply bind_ok in Hctx as ([] & s1 & Hstore & Hctx).
  apply bind_ok in Hctx as ([] & s2 & Hprep & Hctx).
  apply bind_ok in Hctx as ([] & s3 & Hres & Hbuild).
  assert (s1 = {| self := stored a; world := w |}) as ->.
  { rewrite store_arguments_run in Hstore. now inversion Hstore. }
  clear Hstore.
  (* 90-111: a header map with the visitor identity *)
  assert (Hheaders : exists h,
             headers_from E (arg_auth a) h
             /\ CID.contains "x-goog-visitor-id" h = true
             /\ s3 = {| self := with_headers h (stored a); world := w |}).
  { rewrite prepare_headers_run in Hprep. rewrite resolve_visitor_id_run in Hres.
    unfold headers_from.
    destruct (arg_auth a) as [txt|].
    - destruct (truthy txt).
      + destruct (loaded_headers E txt) as [h|e]; inversion Hprep; subst s2;
          simpl in Hres; [|discriminate].
        destruct (CID.contains "x-goog-visitor-id" h) eqn:Hv; inversion Hres.
        exists h. auto.
      + inversion Hprep; subst s2. simpl in Hres.
        destruct (CID.contains "x-goog-visitor-id" (initialize_headers E)) eqn:Hv;
          inversion Hres.
        eexists. eauto.
    - inversion Hprep; subst s2. simpl in Hres.
      destruct (CID.contains "x-goog-visitor-id" (initialize_headers E)) eqn:Hv;
        inversion Hres.
      eexists. eauto. }
  destruct Hheaders as (h & Hfrom & Hvisitor & ->).
  (* 114-123 *)
  rewrite build_context_run in Hbuild.
  destruct (Item.setitem3 (initialize_context E) "context" "client" "hl"
              (JStr (arg_language a))) as [ctx1|] eqn:Hctx1; inversion Hbuild.
  subst s4. clear Hbuild.
  rewrite validate_language_run in Hval.
  destruct (listdir_locales E) as [supported|] eqn:Hdir; [|discriminate].
  destruct (existsb (String.eqb (arg_language a)) supported) eqn:Hin;
    inversion Hval.
  subst s5. clear Hval.
  (* 124-132 *)
  rewrite prepare_locale_run in Hloc.
  destruct (locale_settles E (arg_language a)) eqn:Hsettle; [|discriminate].
  destruct (gettext_translation E [arg_language a]) eqn:Hgettext; [|discriminate].
  destruct (browsing_Parser E) eqn:Hparser; inversion Hloc.
  subst s6. clear Hloc.
  (* 134-135 *)
  assert (Huserctx : exists ctx2,
             user_in (arg_user a) ctx1 ctx2
             /\ s7 = {| self := with_context ctx2
                                  (with_parser [arg_language a]
                                     (with_lang [arg_language a]
                                        (with_language (arg_language a)
                                           (with_context ctx1
                                              (with_headers h (stored a))))));
                        world := w |}).
  { rewrite on_behalf_of_run in Hobo. unfold user_in. simpl in Hobo.
    destruct (arg_user a) as [u|]; simpl in Hobo.
    - change (@truthy (option string) _ (Some u)) with (truthy u) in Hobo.
      destruct (truthy u).
      + destruct (Item.setitem3 ctx1 "context" "user" "onBehalfOfUser" (JStr u))
          as [ctx2|]; inversion Hobo.
        exists ctx2. auto.
      + inversion Hobo. exists ctx1. auto.
    - inversion Hobo. exists ctx1. auto. }
  destruct Huserctx as (ctx2 & Huserin & ->).
  (* 138-145 *)
  rewrite verify_auth_run in Hverify. simpl in Hverify.
  split.
  - destruct (truthy (arg_auth a)).
    + destruct (sapisid_from_cookie E (CID.get "cookie" JNull h)); inversion Hverify.
      reflexivity.
    + inversion Hverify. reflexivity.
  - exists h, ctx1, ctx2, supported.
    unfold secret_from.
    destruct (truthy (arg_auth a)).
    + destruct (sapisid_from_cookie E (CID.get "cookie" JNull h)) as [sec|] eqn:Hsec;
        inversion Hverify.
      exists (Some sec). repeat split; eauto.
    + inversion Hverify. exists None. repeat split; auto.
Qed.

Lemma bind_run {S A B} (m : M S A) (k : A -> M S B) (s s1 : S) (a : A) :
  m s = (Ok a, s1) -> bind m k s = k a s1.
Proof. unfold bind. now intros ->. Qed.

Lemma bind_raise {S A B} (m : M S A) (k : A -> M S B) (s s1 : S) (e : exn) :
  m s = (Raise e, s1) -> bind m k s = (Raise e, s1).
Proof. unfold bind. now intros ->. Qed.

(** The steps go through when each of them has what it needs. *)
Lemma construct_ok_intro (E : Env) (a : init_args) (w : World)
  (h : CaseInsensitiveDict) (ctx1 ctx2 : dict) (supported : list string)
  (secret : option string) :
  headers_from E (arg_auth a) h ->
  CID.contains "x-goog-visitor-id" h = true ->
  Item.setitem3 (initialize_context E) "context" "client" "hl"
    (JStr (arg_language a)) = Ok ctx1 ->
  listdir_locales E = Ok supported ->
  existsb (String.eqb (arg_language a)) supported = true ->
  locale_settles E (arg_language a) = true ->
  is_ok (gettext_translation E [arg_language a]) = true ->
  is_ok (browsing_Parser E) = true ->
  user_in (arg_user a) ctx1 ctx2 ->
  secret_from E (arg_auth a) h secret ->
  construct E a w
  = (Ok (built a h ctx2 secret), {| self := built a h ctx2 secret; world := w |}).
Proof.
  intros Hfrom Hvisitor Hctx1 Hdir Hin Hsettle Hgettext Hparser Huser Hsecret.
  assert (H3 : until_context E a {| self := blank; world := w |}
               = (Ok tt, {| self := with_context ctx1 (with_headers h (stored a));
                            world := w |})).
  { unfold until_context.
    rewrite (@bind_run _ _ _ _ _ _ _ _ (store_arguments_run a _)).
    assert (Hprep : prepare_headers E (arg_auth a)
                      {| self := stored a; world := w |}
                    = (Ok tt, {| self := with_headers h (stored a); world := w |})).
    { rewrite prepare_headers_run. unfold headers_from in Hfrom.
      destruct (arg_auth a) as [txt|] eqn:Ha.
      - destruct (truthy txt); [now rewrite Hfrom|now subst h].
      - now subst h. }
    change {| self := with_cookies _ _; world := world _ |}
      with {| self := stored a; world := w |}.
    rewrite (@bind_run _ _ _ _ _ _ _ _ Hprep).
    assert (Hres : resolve_visitor_id E {| self := with_headers h (stored a); world := w |}
                   = (Ok tt, {| self := with_headers h (stored a); world := w |})).
    { rewrite resolve_visitor_id_run. simpl. now rewrite Hvisitor. }
    rewrite (@bind_run _ _ _ _ _ _ _ _ Hres).
    rewrite build_context_run, Hctx1. reflexivity. }
  assert (H6 : until_user E a {| self := blank; world := w |}
               = (Ok tt, {| self := with_context ctx2
                                      (with_parser [arg_language a]
                                         (with_lang [arg_language a]
                                            (with_language (arg_language a)
                                               (with_context ctx1
                                                  (with_headers h (stored a))))));
                            world := w |})).
  { unfold until_user. rewrite (@bind_run _ _ _ _ _ _ _ _ H3).
    assert (Hval : forall s, validate_language E (arg_language a) s
                   = (Ok tt, {| self := with_language (arg_language a) (self s);
                                world := world s |})).
    { intros s. now rewrite validate_language_run, Hdir, Hin. }
    rewrite (@bind_run _ _ _ _ _ _ _ _ (Hval _)).
    assert (Hloc : forall s, prepare_locale E (arg_language a) s
                   = (Ok tt, {| self := with_parser [arg_language a]
                                          (with_lang [arg_language a] (self s));
                                world := world s |})).
    { intros s. rewrite prepare_locale_run, Hsettle.
      destruct (gettext_translation E [arg_language a]); [|discriminate].
      destruct (browsing_Parser E); [reflexivity|discriminate]. }
    rewrite (@bind_run _ _ _ _ _ _ _ _ (Hloc _)).
    rewrite on_behalf_of_run. simpl. unfold user_in in Huser.
    destruct (arg_user a) as [u|]; simpl.
    - change (@truthy (option string) _ (Some u)) with (truthy u).
      destruct (truthy u); [now rewrite Huser|now subst ctx2].
    - now subst ctx2. }
  unfold construct, __init__. rewrite (@bind_run _ _ _ _ _ _ _ _ H6).
  rewrite verify_auth_run. simpl. unfold secret_from in Hsecret.
  destruct (truthy (arg_auth a)).
  - destruct Hsecret as (sec & Hsec & ->). now rewrite Hsec.
  - now subst secret.
Qed.

(** X11.  When construction returns a client, the credential source (or,
    without one, the default header set) gave a header map that has
    [x-goog-visitor-id] already, the context of the helper has a dict at
    [context.client], the locales directory was listed and has the
    language, the locale settled, the translation and the parser loaded,
    the context has a dict at [context.user] if a user is given, and the
    helper found the secret in the cookie if [auth] is given; the client
    is made of the arguments, that header map as it is, the context with
    the language (and the user) in it, the language and the secret.  When
    the caller hands in the session, so that line 81 takes it and line 83
    makes none, these conditions are also enough for construction to
    return that client. *)
Theorem construction_with_a_session_succeeds_exactly_when
  (E : Env) (a : init_args) (w : World) (y : YTMusic) :
  let went_through :=
    exists h ctx1 ctx2 supported secret,
      headers_from E (arg_auth a) h
      /\ CID.contains "x-goog-visitor-id" h = true
      /\ Item.setitem3 (initialize_context E) "context" "client" "hl"
           (JStr (arg_language a)) = Ok ctx1
      /\ listdir_locales E = Ok supported
      /\ existsb (String.eqb (arg_language a)) supported = true
      /\ locale_settles E (arg_language a) = true
      /\ is_ok (gettext_translation E [arg_language a]) = true
      /\ is_ok (browsing_Parser E) = true
      /\ user_in (arg_user a) ctx1 ctx2
      /\ secret_from E (arg_auth a) h secret
      /\ y = built a h ctx2 secret in
  (fst (construct E a w) = Ok y -> went_through)
  /\ (forall handle,
         arg_client_session a = Some handle ->
         went_through -> fst (construct E a w) = Ok y).
Proof.
  intros went_through. split.
  - intros H.
    assert (Hrun : construct E a w = (Ok y, snd (construct E a w))).
    { rewrite <- H. apply surjective_pairing. }
    apply (proj2 (@construct_ok_inv E a w y _ Hrun)).
  - intros handle _ (h & ctx1 & ctx2 & supported & secret & H1 & H2 & H3 & H4 & H5
                     & H6 & H7 & H8 & H9 & H10 & ->).
    now rewrite (@construct_ok_intro E a w h ctx1 ctx2 supported secret).
Qed.

Lemma construction_with_a_session_succeeds_exactly_when_witness :
  let a := {| arg_auth := Some "<bundle>"; arg_user := None;
              arg_client_session := Some 7%nat; arg_proxies := JNull;
              arg_language := "en" |} in
  let y := built a Demo.client_headers Demo.client_context (Some "s3cr3t") in
  arg_client_session a = Some 7%nat
  /\ fst (construct Demo.ok_env a []) = Ok y.
Proof.
  intros a y. split; [reflexivity|].
  apply (proj2 (@construction_with_a_session_succeeds_exactly_when
                  Demo.ok_env a [] y) 7%nat eq_refl).
  exists Demo.client_headers, Demo.client_context, Demo.client_context,
    ["de"; "en"; "fr"], (Some "s3cr3t").
  repeat split. exists "s3cr3t". split; reflexivity.
Defined.

(* ------------------------------------------------------------------ *)
(** ** What [__init__] does to the history *)

Module Silence.

Lemma bind_preserves {X A B} (f : State -> X) (m : M State A) (k : A -> M State B) :
  preserves f m -> (forall a, preserves f (k a)) -> preserves f (bind m k).
Proof.
  intros Hm Hk s r s' H. unfold bind in H.
  destruct (m s) as [[a|e] s1] eqn:Hms.
  - rewrite (Hk a _ _ _ H). apply (Hm _ _ _ Hms).
  - inversion H; subst. apply (Hm _ _ _ Hms).
Qed.

Lemma silent_then_print {A B} (m : M State A) (k : A -> M State B) :
  preserves world m -> (forall a, prints_at_most_once (k a)) ->
  prints_at_most_once (bind m k).
Proof.
  intros Hm Hk s r s' H. unfold bind in H.
  destruct (m s) as [[a|e] s1] eqn:Hms.
  - rewrite <- (Hm _ _ _ Hms). apply (Hk a _ _ _ H).
  - inversion H; subst. left. apply (Hm _ _ _ Hms).
Qed.

Lemma print_then_silent {A B} (m : M State A) (k : A -> M State B) :
  prints_at_most_once m -> (forall a, preserves world (k a)) ->
  prints_at_most_once (bind m k).
Proof.
  intros Hm Hk s r s' H. unfold bind in H.
  destruct (m s) as [[a|e] s1] eqn:Hms.
  - rewrite (Hk a _ _ _ H). apply (Hm _ _ _ Hms).
  - inversion H; subst. apply (Hm _ _ _ Hms).
Qed.

Ltac by_run lemma :=
  let s := fresh "s" in
  let r := fresh "r" in
  let s' := fresh "s'" in
  let H := fresh "H" in
  intros s r s' H; rewrite lemma in H;
  repeat match type of H with
         | context [match ?x with _ => _ end] => destruct x
         | context [if ?x then _ else _] => destruct x
         end;
  inversion H; reflexivity.

Lemma store_arguments_silent a : preserves world (store_arguments a).
Proof. by_run store_arguments_run. Qed.

Lemma resolve_visitor_id_silent E : preserves world (resolve_visitor_id E).
Proof. by_run (resolve_visitor_id_run E). Qed.

Lemma build_context_silent E lng : preserves world (build_context E lng).
Proof. by_run (build_context_run E lng). Qed.

Lemma validate_language_silent E lng : preserves world (validate_language E lng).
Proof. by_run (validate_language_run E lng). Qed.

Lemma prepare_locale_silent E lng : preserves world (prepare_locale E lng).
Proof. by_run (prepare_locale_run E lng). Qed.

Lemma on_behalf_of_silent user : preserves world (on_behalf_of user).
Proof. by_run (on_behalf_of_run user). Qed.

Lemma verify_auth_silent E a : preserves world (verify_auth E a).
Proof. by_run (verify_auth_run E a). Qed.

Lemma prepare_headers_prints E a : prints_at_most_once (prepare_headers E a).
Proof.
  intros s r s' H. rewrite prepare_headers_run in H.
  destruct a as [txt|].
  - destruct (truthy txt).
    + destruct (loaded_headers E txt) as [h|e]; inversion H; simpl; eauto.
    + inversion H. auto.
  - inversion H. auto.
Qed.

Lemma init_prints E a : prints_at_most_once (__init__ E a).
Proof.
  unfold __init__, until_user, until_context.
  apply print_then_silent; [|intros; apply verify_auth_silent].
  apply print_then_silent.
  - apply silent_then_print; [apply store_arguments_silent|].
    intros _. apply print_then_silent; [apply prepare_headers_prints|].
    intros _. apply bind_preserves; [apply resolve_visitor_id_silent|].
    intros _. apply build_context_silent.
  - intros _. apply bind_preserves; [apply validate_language_silent|].
    intros _. apply bind_preserves; [apply prepare_locale_silent|].
    intros _. apply on_behalf_of_silent.
Qed.

End Silence.

(** X12.  A construction that returns a client has printed nothing,
    posted nothing, fetched nothing and not read the clock: the history is
    the one it found.  However a construction ends, [__init__] itself adds
    to the history the one diagnostic of lines 100 to 103 at most (what
    [get_visitor_id] does inside, when line 110 calls it, is the helper's
    own). *)
Theorem construction_touches_no_network
  (E : Env) (a : init_args) (w : World) :
  let run := construct E a w in
  (world (snd run) = w
   \/ exists e, world (snd run) = (w ++ [EvPrint (credentials_diagnostic e)])%list)
  /\ (forall y, fst run = Ok y -> world (snd run) = w).
Proof.
  intros run. split.
  - subst run. unfold construct.
    destruct (__init__ E a {| self := blank; world := w |}) as [[[]|e] s] eqn:Hinit;
      apply (@Silence.init_prints E a _ _ _ Hinit).
  - intros y Hy.
    assert (Hrun : construct E a w = (Ok y, snd run)).
    { rewrite <- Hy. apply surjective_pairing. }
    destruct (@construct_ok_inv E a w y _ Hrun) as [Hs _]. now rewrite Hs.
Qed.

Lemma construction_touches_no_network_witness :
  fst (construct Demo.ok_env (Demo.args None "en") [EvTime 5]) = Ok Demo.anonymous
  /\ world (snd (construct Demo.ok_env (Demo.args None "en") [EvTime 5])) = [EvTime 5].
Proof.
  split; [reflexivity|].
  apply (proj2 (construction_touches_no_network Demo.ok_env (Demo.args None "en")
                  [EvTime 5]) Demo.anonymous).
  reflexivity.
Defined.

(** X13.  When [auth] is given and cannot be loaded into a header map (no
    readable file, no JSON text, or JSON that is no mapping of headers),
    construction prints the diagnostic and then ends at line 108 in an
    AttributeError on [self.headers], which was never assigned; the
    language, the context and the cookie are not looked at. *)
Theorem unloadable_credentials_end_in_AttributeError
  (E : Env) (a : init_args) (w : World) (txt : string) (e : exn) :
  arg_auth a = Some txt ->
  truthy txt = true ->
  loaded_headers E txt = Raise e ->
  construct E a w
  = (Raise (AttributeError "'YTMusic' object has no attribute 'headers'"),
     {| self := stored a;
        world := (w ++ [EvPrint (credentials_diagnostic e)])%list |}).
Proof.
  intros Ha Htxt Hload.
  assert (Hprep : prepare_headers E (arg_auth a) {| self := stored a; world := w |}
                  = (Ok tt, {| self := stored a;
                               world := (w ++ [EvPrint (credentials_diagnostic e)])%list |})).
  { now rewrite prepare_headers_run, Ha, Htxt, Hload. }
  assert (Hctx : until_context E a {| self := blank; world := w |}
                 = (Raise (AttributeError "'YTMusic' object has no attribute 'headers'"),
                    {| self := stored a;
                       world := (w ++ [EvPrint (credentials_diagnostic e)])%list |})).
  { unfold until_context.
    rewrite (@bind_run _ _ _ _ _ _ _ _ (store_arguments_run a _)).
    change {| self := with_cookies _ _; world := world _ |}
      with {| self := stored a; world := w |}.
    rewrite (@bind_run _ _ _ _ _ _ _ _ Hprep).
    apply bind_raise. rewrite resolve_visitor_id_run. reflexivity. }
  unfold construct, __init__, until_user.
  rewrite (@bind_raise _ _ _ _ _ _ _ _
             (@bind_raise _ _ _ _ _ _ _ _ Hctx)).
  reflexivity.
Qed.

Lemma unloadable_credentials_end_in_AttributeError_witness :
  let a := Demo.args (Some "not json") "xx" in
  let e := LibraryError "JSONDecodeError"
             "unexpected character: line 1 column 1 (char 0)" in
  (arg_auth a = Some "not json" /\ truthy "not json" = true
   /\ loaded_headers Demo.ok_env "not json" = Raise e)
  /\ fst (construct Demo.ok_env a [])
     = Raise (AttributeError "'YTMusic' object has no attribute 'headers'").
Proof.
  intros a e. split; [repeat split|].
  rewrite (@unloadable_credentials_end_in_AttributeError Demo.ok_env a []
             "not json" e eq_refl eq_refl eq_refl).
  reflexivity.
Defined.

(* ------------------------------------------------------------------ *)
(** ** What a constructed client holds *)

Lemma constructed (E : Env) (a : init_args) (w : World) (y : YTMusic) :
  fst (construct E a w) = Ok y ->
  exists h ctx1 ctx2 supported secret,
    headers_from E (arg_auth a) h
    /\ CID.contains "x-goog-visitor-id" h = true
    /\ Item.setitem3 (initialize_context E) "context" "client" "hl"
         (JStr (arg_language a)) = Ok ctx1
    /\ listdir_locales E = Ok supported
    /\ existsb (String.eqb (arg_language a)) supported = true
    /\ user_in (arg_user a) ctx1 ctx2
    /\ secret_from E (arg_auth a) h secret
    /\ y = built a h ctx2 secret.
Proof.
  intros H.
  assert (Hrun : construct E a w = (Ok y, snd (construct E a w))).
  { rewrite <- H. apply surjective_pairing. }
  destruct (@construct_ok_inv E a w y _ Hrun)
    as (_ & h & ctx1 & ctx2 & supported & secret & H1 & H2 & H3 & H4 & H5 & _ & _
        & _ & H9 & H10 & H11).
  exists h, ctx1, ctx2, supported, secret. repeat split; assumption.
Qed.

(** X14.  The header map of a constructed client is the map its credential
    source gave (the default one without [auth]), with nothing added or
    removed, and it has [x-goog-visitor-id]; the signing secret is assigned
    exactly when [auth] was given, and is then what the helper finds in
    the cookie of that map. *)
Theorem constructed_client_credentials
  (E : Env) (a : init_args) (w : World) (y : YTMusic) :
  fst (construct E a w) = Ok y ->
  exists h,
    headers y = Some h
    /\ headers_from E (arg_auth a) h
    /\ CID.contains "x-goog-visitor-id" h = true
    /\ (truthy (arg_auth a) = true ->
        exists sec, sapisid y = Some sec
                    /\ sapisid_from_cookie E (CID.get "cookie" JNull h) = Ok sec)
    /\ (truthy (arg_auth a) = false -> sapisid y = None).
Proof.
  intros H.
  destruct (constructed _ _ _ H)
    as (h & ctx1 & ctx2 & supported & secret & Hfrom & Hv & _ & _ & _ & _ & Hsec & ->).
  exists h. simpl. repeat split; auto.
  - intros Ht. unfold secret_from in Hsec. rewrite Ht in Hsec.
    destruct Hsec as (sec & Hsec & ->). eauto.
  - intros Ht. unfold secret_from in Hsec. now rewrite Ht in Hsec.
Qed.

Lemma constructed_client_credentials_witness :
  fst (construct Demo.ok_env (Demo.args (Some "<bundle>") "en") []) = Ok Demo.client
  /\ exists h, headers Demo.client = Some h
               /\ CID.contains "x-goog-visitor-id" h = true.
Proof.
  split; [reflexivity|].
  destruct (@constructed_client_credentials Demo.ok_env
              (Demo.args (Some "<bundle>") "en") [] Demo.client eq_refl)
    as (h & Hh & _ & Hv & _).
  exists h. split; assumption.
Defined.

Lemma user_in_keeps_the_language (user : option string) (ctx1 ctx2 : dict) (v : json) :
  user_in user ctx1 ctx2 ->
  getitem3 ctx1 "context" "client" "hl" = Ok v ->
  getitem3 ctx2 "context" "client" "hl" = Ok v.
Proof.
  unfold user_in. destruct user as [u|]; [|now intros ->].
  destruct (truthy u); [|now intros ->].
  intros Hset Hget.
  rewrite (proj2 (setitem3_paths _ _ _ _ _ Hset)); [assumption|].
  intros Heq. inversion Heq.
Qed.

Lemma constructed_context
  (E : Env) (a : init_args) (w : World) (y : YTMusic) :
  fst (construct E a w) = Ok y ->
  language y = Some (arg_language a)
  /\ (exists supported,
         listdir_locales E = Ok supported /\ In (arg_language a) supported)
  /\ exists ctx,
       context y = Some ctx
       /\ getitem3 ctx "context" "client" "hl" = Ok (JStr (arg_language a))
       /\ (forall u, arg_user a = Some u -> truthy u = true ->
             getitem3 ctx "context" "user" "onBehalfOfUser" = Ok (JStr u)).
Proof.
  intros H.
  destruct (constructed _ _ _ H)
    as (h & ctx1 & ctx2 & supported & secret & _ & _ & Hctx1 & Hdir & Hin & Huser
        & _ & ->).
  simpl. split; [reflexivity|]. split.
  - exists supported. split; [assumption|].
    apply existsb_exists in Hin. destruct Hin as (l & Hl & Heq).
    apply String.eqb_eq in Heq. now subst l.
  - exists ctx2. split; [reflexivity|]. split.
    + apply (@user_in_keeps_the_language (arg_user a) ctx1 ctx2 _ Huser).
      apply (proj1 (setitem3_paths _ _ _ _ _ Hctx1)).
    + intros u Hu Ht. unfold user_in in Huser. rewrite Hu, Ht in Huser.
      apply (proj1 (setitem3_paths _ _ _ _ _ Huser)).
Qed.

(** X15.  In a constructed client the language is one of the names found
    in the locales directory, and the context reads that language at
    [context.client.hl], also after a user has been written into it; when
    a user is given, the context reads it at
    [context.user.onBehalfOfUser]. *)
Theorem constructed_client_context
  (E : Env) (a : init_args) (w : World) (y : YTMusic) :
  fst (construct E a w) = Ok y ->
  language y = Some (arg_language a)
  /\ (exists supported,
         listdir_locales E = Ok supported /\ In (arg_language a) supported)
  /\ exists ctx,
       context y = Some ctx
       /\ getitem3 ctx "context" "client" "hl" = Ok (JStr (arg_language a))
       /\ (forall u, arg_user a = Some u -> truthy u = true ->
             getitem3 ctx "context" "user" "onBehalfOfUser" = Ok (JStr u)).
Proof. apply constructed_context. Qed.

Lemma constructed_client_context_witness :
  let a := {| arg_auth := None; arg_user := Some "1234567890";
              arg_client_session := Some 7%nat; arg_proxies := JNull;
              arg_language := "fr" |} in
  is_ok (fst (construct Demo.ok_env a [])) = true
  /\ forall y, fst (construct Demo.ok_env a []) = Ok y ->
       exists ctx, context y = Some ctx
                   /\ getitem3 ctx "context" "client" "hl" = Ok (JStr "fr")
                   /\ getitem3 ctx "context" "user" "onBehalfOfUser"
                      = Ok (JStr "1234567890").
Proof.
  intros a. split; [reflexivity|].
  intros y Hy.
  destruct (@constructed_client_context Demo.ok_env a [] y Hy)
    as (_ & _ & ctx & Hc & Hhl & Hu).
  exists ctx. split; [assumption|]. split; [assumption|].
  apply (Hu "1234567890"); reflexivity.
Defined.

(* ------------------------------------------------------------------ *)
(** ** Methods on a constructed client *)

(** X16.  On a client that construction returned, [_check_auth] returns
    when [auth] was given as a non-empty string and raises [Exception]
    with the request for authentication when it was left out or empty; in
    both cases it changes nothing. *)
Theorem check_auth_on_a_constructed_client
  (E : Env) (a : init_args) (w0 : World) (y : YTMusic) (w : World) :
  fst (construct E a w0) = Ok y ->
  _check_auth {| self := y; world := w |}
  = (if truthy (arg_auth a) then Ok tt
     else Raise (Exception "Please provide authentication before using this function"),
     {| self := y; world := w |}).
Proof.
  intros H.
  destruct (constructed _ _ _ H)
    as (h & ctx1 & ctx2 & supported & secret & _ & _ & _ & _ & _ & _ & _ & ->).
  unfold _check_auth, bind, gets, raise, ret. simpl.
  destruct (truthy (arg_auth a)); reflexivity.
Qed.

Lemma check_auth_on_a_constructed_client_witness :
  fst (construct Demo.ok_env (Demo.args None "en") []) = Ok Demo.anonymous
  /\ fst (_check_auth Demo.anonymous_start)
     = Raise (Exception "Please provide authentication before using this function").
Proof.
  split; [reflexivity|].
  unfold Demo.anonymous_start.
  rewrite (@check_auth_on_a_constructed_client Demo.ok_env (Demo.args None "en")
             [] Demo.anonymous [] eq_refl).
  reflexivity.
Defined.

Lemma getitem3_update (body ctx : dict) (k1 k2 k3 : string) (v : json) :
  getitem3 ctx k1 k2 k3 = Ok v ->
  getitem3 (Dict.update body ctx) k1 k2 k3 = Ok v.
Proof.
  unfold getitem3, Item.getitem. rewrite DictFacts.get_update.
  destruct (Dict.get k1 ctx); [auto|discriminate].
Qed.

(** X17.  Every POST of a client that construction returned, now or after
    earlier calls, goes to [YTM_BASE_API + endpoint + YTM_PARAMS +
    additionalParams], with the cookie [CONSENT=YES+1], with the proxies
    given at construction, and with a body that reads the language of the
    client at [context.client.hl], whatever the caller had put under
    [context]. *)
Theorem every_post_of_a_constructed_client
  (E : Env) (a : init_args) (w0 : World) (y : YTMusic)
  (endpoint : string) (body : dict) (additionalParams : string)
  (s : State) (evs : list event) (rq : request) (answer : Result response) :
  fst (construct E a w0) = Ok y ->
  same_but_headers y (self s) ->
  let o := _send_request E endpoint body additionalParams s in
  world (state_after o) = (world s ++ evs)%list ->
  In (EvPost rq answer) evs ->
  url rq = YTM_BASE_API E ++ endpoint ++ YTM_PARAMS E ++ additionalParams
  /\ sent_cookies rq = [("CONSENT", JStr "YES+1")]
  /\ sent_proxies rq = arg_proxies a
  /\ exists d, payload rq = JObj d
               /\ getitem3 d "context" "client" "hl" = Ok (JStr (arg_language a)).
Proof.
  intros Hnew Hsame o.
  destruct (@constructed_context E a w0 y Hnew)
    as (_ & _ & ctx & Hctx & Hhl & _).
  destruct (constructed _ _ _ Hnew)
    as (h & ctx1 & ctx2 & supported & secret & _ & _ & _ & _ & _ & _ & _ & Hy).
  destruct Hsame as (_ & _ & Hprox & Hcook & Hcontext & _).
  assert (Hp : proxies (self s) = arg_proxies a) by (rewrite Hprox, Hy; reflexivity).
  assert (Hc : cookies (self s) = [("CONSENT", JStr "YES+1")])
    by (rewrite Hcook, Hy; reflexivity).
  rewrite Hctx in Hcontext.
  subst o.
  destruct (send_request_run E endpoint body additionalParams s)
    as [e Hn|ctx' e Hn|ctx' s1 h' Hn Hsign Hh rq0]; simpl; intros Hw Hin.
  - apply no_new_events in Hw. subst evs. destruct Hin.
  - apply no_new_events in Hw. subst evs. destruct Hin.
  - destruct (@posted_events E s s1 rq0 evs rq answer Hsign Hw Hin) as [-> _].
    assert (Hself : proxies (self s1) = proxies (self s)
                    /\ cookies (self s1) = cookies (self s)).
    { destruct (@sign_ok E s s1 Hsign)
        as [[_ ->]|(_ & h0 & sec & o & _ & _ & _ & ->)]; split; reflexivity. }
    destruct Hself as [Hp1 Hc1].
    subst rq0. simpl. rewrite Hp1, Hc1, Hp, Hc.
    repeat split; auto.
    exists (Dict.update body ctx'). split; [reflexivity|].
    apply getitem3_update. congruence.
Qed.

Lemma every_post_of_a_constructed_client_witness :
  let o := _send_request Demo.ok_env "search" Demo.search_body "&x=1" Demo.start in
  (fst (construct Demo.ok_env (Demo.args (Some "<bundle>") "en") []) = Ok Demo.client
   /\ same_but_headers Demo.client (self Demo.start)
   /\ exists evs rq answer,
        world (state_after o) = (world Demo.start ++ evs)%list
        /\ In (EvPost rq answer) evs
        /\ url rq = "https://music.youtube.com/youtubei/v1/search?alt=json&x=1").
Proof.
  intros o. split; [reflexivity|]. split; [repeat split|].
  do 3 eexists.
  split; [reflexivity|]. split; [right; left; reflexivity|].
  eapply (@every_post_of_a_constructed_client Demo.ok_env
            (Demo.args (Some "<bundle>") "en") [] Demo.client
            "search" Demo.search_body "&x=1" Demo.start).
  - reflexivity.
  - repeat split.
  - reflexivity.
  - right; left; reflexivity.
Defined.

(* ------------------------------------------------------------------ *)
(** ** Lines 124 to 132: the locale *)

(** X18.  A [locale.Error] does not stop construction: when [setlocale]
    raises it for the language and again for [en_US.UTF-8], lines 124 to
    132 go on to the translation and the parser as if it had returned.
    Any other exception of the first [setlocale] ends the step as it is. *)
Theorem locale_errors_are_swallowed
  (E : Env) (lng : string) (s : State) :
  (forall m1 m2,
      setlocale E lng = Raise (LocaleError m1) ->
      setlocale E "en_US.UTF-8" = Raise (LocaleError m2) ->
      is_ok (gettext_translation E [lng]) = true ->
      is_ok (browsing_Parser E) = true ->
      prepare_locale E lng s
      = (Ok tt, {| self := with_parser [lng] (with_lang [lng] (self s));
                   world := world s |}))
  /\ (forall e,
         setlocale E lng = Raise e ->
         is_LocaleError e = false ->
         prepare_locale E lng s = (Raise e, s)).
Proof.
  split.
  - intros m1 m2 H1 H2 Hg Hp. rewrite prepare_locale_run.
    unfold locale_settles. rewrite H1. simpl. rewrite ?H2. simpl.
    destruct (gettext_translation E [lng]); [|discriminate].
    destruct (browsing_Parser E); [reflexivity|discriminate].
  - intros e He Hnot. rewrite prepare_locale_run.
    unfold locale_settles, locale_failure. now rewrite He, Hnot.
Qed.

Lemma locale_errors_are_swallowed_witness :
  let E :=
    {| isfile := isfile Demo.ok_env; open_and_load := open_and_load Demo.ok_env;
       orjson_loads := orjson_loads Demo.ok_env;
       listdir_locales := listdir_locales Demo.ok_env;
       setlocale := fun _ => Raise (LocaleError "unsupported locale setting");
       gettext_translation := gettext_translation Demo.ok_env;
       browsing_Parser := browsing_Parser Demo.ok_env;
       initialize_headers := initialize_headers Demo.ok_env;
       initialize_context := initialize_context Demo.ok_env;
       get_visitor_id := get_visitor_id Demo.ok_env;
       sapisid_from_cookie := sapisid_from_cookie Demo.ok_env;
       hash_scheme := hash_scheme Demo.ok_env;
       YTM_BASE_API := YTM_BASE_API Demo.ok_env;
       YTM_PARAMS := YTM_PARAMS Demo.ok_env;
       time_now := time_now Demo.ok_env;
       session_post := session_post Demo.ok_env;
       session_get := session_get Demo.ok_env |} in
  setlocale E "de" = Raise (LocaleError "unsupported locale setting")
  /\ fst (prepare_locale E "de" {| self := blank; world := [] |}) = Ok tt.
Proof.
  intros E. split; [reflexivity|].
  rewrite (proj1 (locale_errors_are_swallowed E "de" {| self := blank; world := [] |})
             "unsupported locale setting" "unsupported locale setting"
             eq_refl eq_refl eq_refl eq_refl).
  reflexivity.
Defined.

(* ------------------------------------------------------------------ *)
(** ** Line 150 on a body that has been sent before *)

Lemma set_present k v d : Dict.get k d = Some v -> Dict.set k v d = d.
Proof.
  induction d as [|[k' v'] r IH]; simpl; [discriminate|].
  destruct (String.eqb k k') eqn:Hk.
  - intros H. inversion H. reflexivity.
  - intros H. now rewrite IH.
Qed.

Lemma update_fold_fixed other ks d :
  (forall k v, Dict.get k other = Some v -> Dict.get k d = Some v) ->
  fold_left (fun acc k => match Dict.get k other with
                          | Some v => Dict.set k v acc
                          | None => acc
                          end) ks d = d.
Proof.
  intros Hd. induction ks as [|k ks IH]; simpl; [reflexivity|].
  destruct (Dict.get k other) as [v|] eqn:Hk; [|exact IH].
  rewrite (set_present _ _ (Hd _ _ Hk)). exact IH.
Qed.

(** X19.  Merging the same context a second time changes nothing: a dict
    that has been the body of a call comes out of the next call on the
    same client as it went in, key for key and in the same order. *)
Theorem body_of_a_call_is_stable_under_a_second_call
  (E : Env) (endpoint endpoint2 : string) (body : dict)
  (additionalParams additionalParams2 : string) (s : State) (ctx : dict) :
  context (self s) = Some ctx ->
  let o := _send_request E endpoint body additionalParams s in
  let o2 := _send_request E endpoint2 (body_after o) additionalParams2 (state_after o) in
  body_after o2 = body_after o.
Proof.
  intros Hctx o o2.
  assert (Hupd : forall b, Dict.update (Dict.update b ctx) ctx = Dict.update b ctx).
  { intros b. unfold Dict.update at 1. apply update_fold_fixed.
    intros k v Hk. now rewrite DictFacts.get_update, Hk. }
  assert (Hbody : forall ep b ap s0,
             context (self s0) = Some ctx ->
             body_after (_send_request E ep b ap s0) = Dict.update b ctx).
  { intros ep b ap s0 H0.
    destruct (send_request_run E ep b ap s0); simpl; congruence. }
  assert (Hctx2 : context (self (state_after o)) = Some ctx).
  { subst o.
    destruct (send_request_run E endpoint body additionalParams s)
      as [e Hn|ctx' e Hn|ctx' s1 h Hn Hsign Hh rq0]; simpl; auto.
    destruct (@sign_ok E s s1 Hsign)
      as [[_ ->]|(_ & h0 & sec & og & _ & _ & _ & ->)]; simpl; auto. }
  subst o2. rewrite (Hbody _ _ _ _ Hctx2). subst o.
  rewrite (Hbody _ _ _ _ Hctx). apply Hupd.
Qed.

Lemma body_of_a_call_is_stable_under_a_second_call_witness :
  context (self Demo.start) = Some Demo.client_context
  /\ body_after
       (_send_request Demo.ok_env "next"
          (body_after (_send_request Demo.ok_env "search" Demo.search_body ""
                         Demo.start))
          ""
          (state_after (_send_request Demo.ok_env "search" Demo.search_body ""
                          Demo.start)))
     = body_after (_send_request Demo.ok_env "search" Demo.search_body "" Demo.start).
Proof.
  split; [reflexivity|].
  apply (@body_of_a_call_is_stable_under_a_second_call Demo.ok_env "search" "next"
           Demo.search_body "" "" Demo.start Demo.client_context eq_refl).
Defined.

(* ------------------------------------------------------------------ *)
(** ** Header names in the credential source *)

Lemma find_update_unique (d : dict) (key : string) (v : json) :
  Dict.get key d = Some v ->
  (forall k, In k (Dict.keys d) -> Text.lower k = Text.lower key -> k = key) ->
  forall ks h,
    (forall k, In k ks -> In k (Dict.keys d)) ->
    CID.find (Text.lower key)
      (fold_left (fun acc k => match Dict.get k d with
                               | Some x => CID.setitem k x acc
                               | None => acc
                               end) ks h)
    = if existsb (String.eqb key) ks then Some (key, v)
      else CID.find (Text.lower key) h.
Proof.
  intros Hv Huniq ks. induction ks as [|k ks IH]; intros h Hks; simpl; [reflexivity|].
  rewrite IH by (intros k' Hk'; apply Hks; now right).
  destruct (String.eqb key k) eqn:Hk; simpl.
  - apply String.eqb_eq in Hk. subst k. rewrite Hv.
    unfold CID.setitem. rewrite CIDFacts.find_store_same.
    now destruct (existsb (String.eqb key) ks).
  - destruct (existsb (String.eqb key) ks); [reflexivity|].
    destruct (Dict.get k d) as [x|]; [|reflexivity].
    unfold CID.setitem. apply CIDFacts.find_store_other.
    intros Heq. apply String.eqb_neq in Hk. apply Hk. symmetry.
    apply Huniq; [apply Hks; now left|assumption].
Qed.

Lemma get_in_keys k d v :
  Dict.get k d = Some v -> existsb (String.eqb k) (Dict.keys d) = true.
Proof.
  induction d as [|[k' v'] r IH]; simpl; [discriminate|].
  destruct (String.eqb k k'); simpl; auto.
Qed.

(** X20.  The header names of the credential source are matched without
    regard to case: when the decoded JSON object has the header under some
    spelling, and under no second spelling, the header map made of it
    gives its value for every spelling of the name, so line 140 finds a
    [Cookie] and line 108 an [X-Goog-Visitor-Id]. *)
Theorem loaded_headers_ignore_case
  (d : dict) (key spelling : string) (v default : json) :
  Dict.get key d = Some v ->
  (forall k, In k (Dict.keys d) -> Text.lower k = Text.lower key -> k = key) ->
  Text.lower spelling = Text.lower key ->
  CIDNew.make (JObj d) = Ok (CID.update [] d)
  /\ CID.get spelling default (CID.update [] d) = v
  /\ CID.contains spelling (CID.update [] d) = true.
Proof.
  intros Hv Huniq Hsp. split; [reflexivity|].
  assert (Hfind : CID.find (Text.lower key) (CID.update [] d) = Some (key, v)).
  { unfold CID.update.
    rewrite (@find_update_unique d key v Hv Huniq (Dict.keys d) [] (fun k H => H)).
    now rewrite (get_in_keys _ _ Hv). }
  unfold CID.get, CID.contains. rewrite Hsp, Hfind. auto.
Qed.

Lemma loaded_headers_ignore_case_witness :
  Dict.get "Cookie" Demo.bundle
  = Some (JStr "CONSENT=YES+1; __Secure-3PAPISID=s3cr3t; SID=abc")
  /\ CID.get "cookie" JNull (CID.update [] Demo.bundle)
     = JStr "CONSENT=YES+1; __Secure-3PAPISID=s3cr3t; SID=abc".
Proof.
  split; [reflexivity|].
  apply (@loaded_headers_ignore_case Demo.bundle "Cookie" "cookie" _ JNull eq_refl).
  - intros k Hin Hlow. simpl in Hin.
    destruct Hin as [<-|[<-|[<-|[<-|[]]]]]; try reflexivity; discriminate.
  - reflexivity.
Defined.

(* ------------------------------------------------------------------ *)
(** ** Line 142 catches [KeyError] only *)

(** X21.  In an authenticated construction that has passed lines 78 to
    135, an exception of [sapisid_from_cookie] that is no [KeyError] is
    not turned into the [Exception] of line 143: it ends the construction
    as it is. *)
Theorem helper_errors_other_than_KeyError_get_out
  (E : Env) (a : init_args) (w : World) (s1 : State)
  (h : CaseInsensitiveDict) (e : exn) :
  truthy (arg_auth a) = true ->
  until_user E a {| self := blank; world := w |} = (Ok tt, s1) ->
  headers (self s1) = Some h ->
  sapisid_from_cookie E (CID.get "cookie" JNull h) = Raise e ->
  is_KeyError e = false ->
  construct E a w = (Raise e, s1).
Proof. apply other_helper_errors_pass_through. Qed.

Lemma helper_errors_other_than_KeyError_get_out_witness :
  let e := AttributeError "'NoneType' object has no attribute 'items'" in
  let E :=
    {| isfile := isfile Demo.ok_env; open_and_load := open_and_load Demo.ok_env;
       orjson_loads := orjson_loads Demo.ok_env;
       listdir_locales := listdir_locales Demo.ok_env;
       setlocale := setlocale Demo.ok_env;
       gettext_translation := gettext_translation Demo.ok_env;
       browsing_Parser := browsing_Parser Demo.ok_env;
       initialize_headers := initialize_headers Demo.ok_env;
       initialize_context := initialize_context Demo.ok_env;
       get_visitor_id := get_visitor_id Demo.ok_env;
       sapisid_from_cookie :=
         fun c => match c with
                  | JNull => Raise e
                  | _ => sapisid_from_cookie Demo.ok_env c
                  end;
       hash_scheme := hash_scheme Demo.ok_env;
       YTM_BASE_API := YTM_BASE_API Demo.ok_env;
       YTM_PARAMS := YTM_PARAMS Demo.ok_env;
       time_now := time_now Demo.ok_env;
       session_post := session_post Demo.ok_env;
       session_get := session_get Demo.ok_env |} in
  let a := Demo.args (Some "<bundle without cookie>") "en" in
  let s1 := snd (until_user E a {| self := blank; world := [] |}) in
  (truthy (arg_auth a) = true
   /\ until_user E a {| self := blank; world := [] |} = (Ok tt, s1)
   /\ headers (self s1) = Some (CID.update [] Demo.bundle_without_cookie)
   /\ sapisid_from_cookie E
        (CID.get "cookie" JNull (CID.update [] Demo.bundle_without_cookie)) = Raise e
   /\ is_KeyError e = false)
  /\ fst (construct E a []) = Raise e.
Proof.
  intros e E a s1. split; [repeat split|].
  rewrite (@helper_errors_other_than_KeyError_get_out E a [] s1
             (CID.update [] Demo.bundle_without_cookie) e
             eq_refl eq_refl eq_refl eq_refl eq_refl).
  reflexivity.
Defined.
